(** * Category reconciliation, auto-detection, filtering and duration
      formatting of the video directory

    A shallow embedding of the data-shaping functions of the catalogue page
    ([src/app/page.tsx]: [staticCategories], [categories], [loadVideos],
    [filterVideos], [getThumbnailUrl], [formatDuration]) and of the admin
    form ([detectCategoriesFromContent] and the handlers of the form state),
    followed by the properties the specification states about them and by
    further properties of the code.

    Conventions of the embedding.
    - A JavaScript string is a [string]; the text handled here is ASCII, so
      [toLowerCase] maps [A-Z] to [a-z] and [trim] strips the ASCII white
      space characters (tab, line feed, vertical tab, form feed, carriage
      return, space).
    - A JavaScript number that holds a duration component is an [N]; the
      digit runs of a duration denote integers below 2^53, where the
      double-precision arithmetic of [parseInt] and [toString] is exact.
    - [undefined]/[null] is [None].
    - React state is passed explicitly: a function that calls a state setter
      returns the new value of that piece of state. *)

From Stdlib Require Import List String Ascii Bool Arith NArith ZArith Lia.
From Stdlib Require Import Sorting.Sorted Sorting.Permutation.
From Stdlib Require Import Structures.OrderedTypeEx.
Import ListNotations.

Local Open Scope string_scope.
Local Open Scope list_scope.

(* ================================================================== *)
(** * Part I: the embedding *)
(* ================================================================== *)

(** ** String primitives *)

Module JSString.

(** One character of [String.prototype.toLowerCase]. *)
Definition lowerChar (c : ascii) : ascii :=
  let n := nat_of_ascii c in
  if (65 <=? n)%nat && (n <=? 90)%nat then ascii_of_nat (n + 32) else c.

(** [s.toLowerCase()] *)
Fixpoint toLowerCase (s : string) : string :=
  match s with
  | EmptyString => EmptyString
  | String c r => String (lowerChar c) (toLowerCase r)
  end.

(** [p] is an initial segment of [s]. *)
Fixpoint startsWith (s p : string) {struct p} : bool :=
  match p, s with
  | EmptyString, _ => true
  | String _ _, EmptyString => false
  | String a p', String b s' => Ascii.eqb a b && startsWith s' p'
  end.

(** [s.includes(sub)]: [sub] occurs in [s] at some position. *)
Fixpoint includes (s sub : string) : bool :=
  startsWith s sub ||
  match s with
  | EmptyString => false
  | String _ r => includes r sub
  end.

(** White space removed by [trim]. *)
Definition isSpace (c : ascii) : bool :=
  let n := nat_of_ascii c in
  ((9 <=? n)%nat && (n <=? 13)%nat) || (n =? 32)%nat.

Fixpoint trimStart (s : string) : string :=
  match s with
  | EmptyString => EmptyString
  | String c r => if isSpace c then trimStart r else s
  end.

Fixpoint trimEnd (s : string) : string :=
  match s with
  | EmptyString => EmptyString
  | String c r =>
      match trimEnd r with
      | EmptyString => if isSpace c then EmptyString else String c EmptyString
      | r' => String c r'
      end
  end.

(** [s.trim()] *)
Definition trim (s : string) : string := trimEnd (trimStart s).

(** Truthiness of a string: only the empty string is falsy. *)
Definition truthy (s : string) : bool :=
  match s with EmptyString => false | _ => true end.

(** The characters [padStart] puts in front: [n] characters read cyclically
    from [pad]; [rest] is what is left of the current copy of [pad]. *)
Fixpoint filler (n : nat) (pad rest : string) : string :=
  match n with
  | O => EmptyString
  | S n' =>
      match rest with
      | String c r => String c (filler n' pad r)
      | EmptyString =>
          match pad with
          | String c r => String c (filler n' pad r)
          | EmptyString => EmptyString
          end
      end
  end.

(** [s.padStart(targetLength, padString)] *)
Definition padStart (s : string) (targetLength : nat) (padString : string)
  : string :=
  if (targetLength <=? String.length s)%nat then s
  else filler (targetLength - String.length s) padString padString ++ s.

(** The comparison of [Array.prototype.sort] without a comparator:
    code units, left to right. *)
Definition defaultCompare (a b : string) : Z :=
  match String.compare a b with
  | Lt => (-1)%Z
  | Eq => 0%Z
  | Gt => 1%Z
  end.

End JSString.

(** ** Array primitives *)

Module JSArray.

(** [arr.includes(x)] on an array of strings. *)
Definition includes (arr : list string) (x : string) : bool :=
  existsb (String.eqb x) arr.

(** [arr.indexOf(x)]: first position of [x], [-1] when there is none. *)
Fixpoint indexOf (arr : list string) (x : string) : Z :=
  match arr with
  | [] => (-1)%Z
  | y :: r =>
      if String.eqb y x then 0%Z
      else let i := indexOf r x in
           if (i <? 0)%Z then (-1)%Z else (i + 1)%Z
  end.

(** A [Set] of strings, kept in insertion order. *)
Definition Set_add (acc : list string) (x : string) : list string :=
  if existsb (String.eqb x) acc then acc else acc ++ [x].

(** [[...new Set(arr)]] *)
Definition newSet (arr : list string) : list string :=
  fold_left Set_add arr [].

(** [arr.filter(Boolean)] on strings. *)
Definition filterBoolean (arr : list string) : list string :=
  filter JSString.truthy arr.

(** [arr.slice(1)] *)
Definition slice1 {A} (arr : list A) : list A := tl arr.

(** [arr.sort(cmp)]: the sort is stable; with a consistent comparator every
    stable sort produces the list computed here. *)
Fixpoint insertBy {A} (cmp : A -> A -> Z) (x : A) (l : list A) : list A :=
  match l with
  | [] => [x]
  | y :: r => if (cmp x y <=? 0)%Z then x :: l else y :: insertBy cmp x r
  end.

Definition sort {A} (cmp : A -> A -> Z) (l : list A) : list A :=
  fold_right (insertBy cmp) [] l.

End JSArray.

(** ** Data model *)

(** Modelled from the spec: the [Video] interface is declared in
    [lib/database], which is not among the sources; the fields are those of
    the specification's video record.  [tags] may be absent, as the guards of
    the code ([video.tags || []], [video.tags && ...], [video.tags?.some])
    provide for. *)
Record Video := mkVideo {
  id : string;
  title : string;
  description : string;
  videoUrl : string;
  thumbnail : option string;
  category : string;
  tags : option (list string);
  duration : option string
}.

(** ** Category reconciliation ([page.tsx], lines 32-48 and 77-111) *)

Definition staticCategories : list string :=
  ["All"; "Music"; "Interviews"; "Podcasts"; "Freestyle"; "Off The Porch"].

Section Reconciler.

(** [a.localeCompare(b)] is the host's collation; it is a parameter. *)
Variable localeCompare : string -> string -> Z.

(** The comparator handed to [sort] when the categories are merged. *)
Definition preferredCompare (a b : string) : Z :=
  let order :=
    ["All"; "Music"; "Interviews"; "Podcasts"; "Freestyle"; "Off The Porch"] in
  let aIndex := JSArray.indexOf order a in
  let bIndex := JSArray.indexOf order b in
  if negb (aIndex =? -1)%Z && negb (bIndex =? -1)%Z then (aIndex - bIndex)%Z
  else if negb (aIndex =? -1)%Z then (-1)%Z
  else if negb (bIndex =? -1)%Z then 1%Z
  else localeCompare a b.

(** The constant [categories] of the component, as a function of the state
    [dynamicCategories]. *)
Definition categories (dynamicCategories : list string) : list string :=
  if (0 <? List.length dynamicCategories)%nat then
    JSArray.sort preferredCompare
      ("All" :: JSArray.newSet (JSArray.slice1 staticCategories
                                ++ JSArray.slice1 dynamicCategories))
  else staticCategories.

(** The three lists [loadVideos] derives from the records. *)
Definition categoryFromField (videoList : list Video) : list string :=
  JSArray.filterBoolean (JSArray.newSet (map category videoList)).

Definition categoriesFromTags (videoList : list Video) : list string :=
  JSArray.filterBoolean
    (JSArray.newSet
       (flat_map (fun video => match tags video with
                               | Some t => t
                               | None => []
                               end) videoList)).

Definition allUniqueCategories (videoList : list Video) : list string :=
  JSArray.filterBoolean
    (JSArray.newSet (categoryFromField videoList
                     ++ categoriesFromTags videoList)).

(** [loadVideos], on the state [dynamicCategories]: the setter is called
    only when some category was observed. *)
Definition loadVideos (dynamicCategories : list string)
           (videoList : list Video) : list string :=
  let all := allUniqueCategories videoList in
  if (0 <? List.length all)%nat then
    "All" :: JSArray.sort JSString.defaultCompare all
  else dynamicCategories.

(** The reconciler: the categories shown once the freshly mounted page
    (state [dynamicCategories = []]) has loaded [videoList]. *)
Definition reconcile (videoList : list Video) : list string :=
  categories (loadVideos [] videoList).

End Reconciler.

(** ** Category auto-detection ([VideoForm], lines 24-45) *)

Definition push (arr : list string) (x : string) : list string := arr ++ [x].

Definition detectCategoriesFromContent (title description : string)
  : list string :=
  let content := JSString.toLowerCase (title ++ " " ++ description) in
  let has := JSString.includes content in
  let detectedCategories := [] in
  let detectedCategories :=
    if has "music" || has "song" || has "album" || has "artist"
       || has "beat" || has "track"
    then push detectedCategories "Music" else detectedCategories in
  let detectedCategories :=
    if has "interview" || has "conversation" || has "talk"
       || has "discussion"
    then push detectedCategories "Interviews" else detectedCategories in
  let detectedCategories :=
    if has "podcast" || has "episode" || has "show"
    then push detectedCategories "Podcasts" else detectedCategories in
  let detectedCategories :=
    if has "freestyle" || has "cypher" || has "bars" || has "rap"
       || has "flow"
    then push detectedCategories "Freestyle" else detectedCategories in
  let detectedCategories :=
    if has "off the porch" || has "porch" || has "street" || has "hood"
    then push detectedCategories "Off The Porch" else detectedCategories in
  if (0 <? List.length detectedCategories)%nat then detectedCategories
  else ["Music"].

(** ** Video filter ([page.tsx], lines 129-156) *)

(** Truthiness of a value that is a boolean or [undefined]. *)
Definition toBoolean (v : option bool) : bool :=
  match v with Some b => b | None => false end.

(** The callback of the category stage. *)
Definition categoryStage (selectedCategory : string) (video : Video) : bool :=
  let categoryMatches := String.eqb (category video) selectedCategory in
  let tagsInclude :=
    match tags video with
    | Some t => Some (JSArray.includes t selectedCategory)
    | None => None
    end in
  categoryMatches || toBoolean tagsInclude.

(** The callback of the text stage. *)
Definition textStage (searchTerm : string) (video : Video) : bool :=
  let term := JSString.toLowerCase searchTerm in
  JSString.includes (JSString.toLowerCase (title video)) term
  || JSString.includes (JSString.toLowerCase (description video)) term
  || toBoolean
       (match tags video with
        | Some t =>
            Some (existsb (fun tag =>
                    JSString.includes (JSString.toLowerCase tag) term) t)
        | None => None
        end).

(** [filterVideos]: the value it stores in [filteredVideos]. *)
Definition filterVideos (videos : list Video)
           (selectedCategory searchTerm : string) : list Video :=
  let filtered := videos in
  let filtered :=
    if negb (String.eqb selectedCategory "All")
    then filter (categoryStage selectedCategory) videos
    else filtered in
  let filtered :=
    if JSString.truthy (JSString.trim searchTerm)
    then filter (textStage searchTerm) filtered
    else filtered in
  filtered.

(** ** Numbers and their decimal text *)

Module JSNumber.

Definition isDigit (c : ascii) : bool :=
  let n := nat_of_ascii c in (48 <=? n)%nat && (n <=? 57)%nat.

Definition digitValue (c : ascii) : N := N.of_nat (nat_of_ascii c - 48).

Definition digitChar (d : N) : ascii := ascii_of_nat (48 + N.to_nat d).

(** The value of the leading decimal digits of [s], continuing [acc]. *)
Fixpoint parseDigits (acc : N) (s : string) : N :=
  match s with
  | EmptyString => acc
  | String c r =>
      if isDigit c then parseDigits (10 * acc + digitValue c) r else acc
  end.

(** The integers that a number of the program holds exactly: those below
    2^53.  From there on [parseInt] rounds to a double and [toString] prints
    that double, in exponent notation from 10^21 on, which the definitions
    below do not follow; a statement about the value or the digits of a
    number carries [safe] as a hypothesis. *)
Definition safe (n : N) : Prop := (n < 2 ^ 53)%N.

(** [parseInt(s)] for [s] that begins with a digit, the only arguments the
    code passes (captures of [\d+]); the value of the program when it is
    [safe]. *)
Definition parseInt (s : string) : N := parseDigits 0 s.

(** The decimal digits of [n] in front of [acc]; [fuel] bounds their
    number. *)
Fixpoint toDigits (fuel : nat) (n : N) (acc : string) : string :=
  match fuel with
  | O => acc
  | S f =>
      let acc' := String (digitChar (n mod 10)) acc in
      if (n <? 10)%N then acc' else toDigits f (n / 10) acc'
  end.

(** [n.toString()], also the text a template literal inserts for [n], for
    [n] that is [safe]. *)
Definition toString (n : N) : string :=
  toDigits (S (N.to_nat (N.log2 n))) n EmptyString.

End JSNumber.

(** ** Regular expressions *)

Module JSRegExp.

(** The fragment of the pattern language [formatDuration] uses. *)
Inductive regex : Type :=
| Lit (c : ascii)               (* a literal character *)
| Digits                        (* \d+ , greedy *)
| Cat (r1 r2 : regex)           (* r1 r2 *)
| Opt (r : regex)               (* (?: r )? , greedy *)
| Group (i : nat) (r : regex).  (* ( r ) , capture number i *)

(** The captures of a match: [undefined] for a group that took no part. *)
Definition captures : Type := nat -> option string.

Definition noCaptures : captures := fun _ => None.

Definition setCapture (i : nat) (text : string) (caps : captures)
  : captures :=
  fun j => if Nat.eqb j i then Some text else caps j.

(** The text between the position [s] and the later position [s']. *)
Definition consumed (s s' : string) : string :=
  substring 0 (String.length s - String.length s') s.

(** [\d+] with backtracking: the longest run of digits first, then the
    shorter ones; [k] is the rest of the match. *)
Fixpoint digitsThen {R} (s : string) (k : string -> option R) : option R :=
  match s with
  | EmptyString => None
  | String c r =>
      if JSNumber.isDigit c then
        match digitsThen r k with
        | Some res => Some res
        | None => k r
        end
      else None
  end.

(** Backtracking matcher at a fixed position, in continuation-passing
    style: [k] receives the rest of the input and the captures so far. *)
Fixpoint matchAt (r : regex) (s : string) (caps : captures)
         (k : string -> captures -> option captures) : option captures :=
  match r with
  | Lit c =>
      match s with
      | String c' s' => if Ascii.eqb c c' then k s' caps else None
      | EmptyString => None
      end
  | Digits => digitsThen s (fun s' => k s' caps)
  | Cat r1 r2 =>
      matchAt r1 s caps (fun s' caps' => matchAt r2 s' caps' k)
  | Opt r1 =>
      match matchAt r1 s caps k with
      | Some res => Some res
      | None => k s caps
      end
  | Group i r1 =>
      matchAt r1 s caps
              (fun s' caps' => k s' (setCapture i (consumed s s') caps'))
  end.

(** [s.match(r)] for a pattern without the global flag: the match at the
    leftmost position that has one, [null] when no position has. *)
Fixpoint exec (r : regex) (s : string) : option captures :=
  match matchAt r s noCaptures (fun _ caps => Some caps) with
  | Some caps => Some caps
  | None =>
      match s with
      | EmptyString => None
      | String _ s' => exec r s'
      end
  end.

End JSRegExp.

(** ** Duration formatter ([page.tsx], lines 191-207) *)

(** [/PT(?:(\d+)H)?(?:(\d+)M)?(?:(\d+)S)?/] *)
Definition durationPattern : JSRegExp.regex :=
  let component (i : nat) (unit : ascii) :=
    JSRegExp.Opt (JSRegExp.Cat (JSRegExp.Group i JSRegExp.Digits)
                               (JSRegExp.Lit unit)) in
  JSRegExp.Cat (JSRegExp.Lit "P"%char)
    (JSRegExp.Cat (JSRegExp.Lit "T"%char)
       (JSRegExp.Cat (component 1%nat "H"%char)
          (JSRegExp.Cat (component 2%nat "M"%char)
                        (component 3%nat "S"%char)))).

(** [match[i] ? parseInt(match[i]) : 0] *)
Definition durationComponent (m : JSRegExp.captures) (i : nat) : N :=
  match m i with
  | Some g => if JSString.truthy g then JSNumber.parseInt g else 0%N
  | None => 0%N
  end.

(** The two template literals. *)
Definition renderDuration (hours minutes seconds : N) : string :=
  if (0 <? hours)%N then
    JSNumber.toString hours ++ ":"
    ++ JSString.padStart (JSNumber.toString minutes) 2 "0" ++ ":"
    ++ JSString.padStart (JSNumber.toString seconds) 2 "0"
  else
    JSNumber.toString minutes ++ ":"
    ++ JSString.padStart (JSNumber.toString seconds) 2 "0".

Definition formatDuration (duration : option string) : option string :=
  match duration with
  | None => None
  | Some d =>
      if negb (JSString.truthy d) then None
      else
        match JSRegExp.exec durationPattern d with
        | None => None
        | Some m =>
            let hours := durationComponent m 1 in
            let minutes := durationComponent m 2 in
            let seconds := durationComponent m 3 in
            Some (renderDuration hours minutes seconds)
        end
  end.

(** ** The same code with faults made explicit

    A member access on [undefined] or [null] raises a [TypeError].  The
    definitions below repeat [filterVideos] and [formatDuration], the two
    functions that dereference optional values, with every such access
    written as [member]; the guards of the source decide which accesses are
    evaluated. *)

Module Faulting.

Inductive Res (A : Type) : Type :=
| Ok (a : A)
| TypeError.
Arguments Ok {A} a.
Arguments TypeError {A}.

Definition bind {A B} (m : Res A) (f : A -> Res B) : Res B :=
  match m with
  | Ok a => f a
  | TypeError => TypeError
  end.

Notation "x <- m ;; k" := (bind m (fun x => k))
  (at level 61, m at next level, right associativity).

(** [receiver.name]: a fault when the receiver is absent. *)
Definition member {A} (receiver : option A) : Res A :=
  match receiver with
  | Some a => Ok a
  | None => TypeError
  end.

Definition isPresent {A} (v : option A) : bool :=
  match v with Some _ => true | None => false end.

(** [arr.filter(f)] for a callback that may fault. *)
Fixpoint filterRes {A} (f : A -> Res bool) (l : list A) : Res (list A) :=
  match l with
  | [] => Ok []
  | x :: r =>
      b <- f x ;;
      r' <- filterRes f r ;;
      Ok (if b then x :: r' else r')
  end.

Definition categoryStage (selectedCategory : string) (video : Video)
  : Res bool :=
  let categoryMatches := String.eqb (category video) selectedCategory in
  (* video.tags && video.tags.includes(selectedCategory) *)
  tagsInclude <-
    (if isPresent (tags video) then
       t <- member (tags video) ;;
       Ok (Some (JSArray.includes t selectedCategory))
     else Ok None) ;;
  Ok (categoryMatches || toBoolean tagsInclude).

Definition textStage (searchTerm : string) (video : Video) : Res bool :=
  let term := JSString.toLowerCase searchTerm in
  if JSString.includes (JSString.toLowerCase (title video)) term then Ok true
  else if JSString.includes (JSString.toLowerCase (description video)) term
  then Ok true
  else
    (* video.tags?.some(...) : the call is skipped on an absent receiver *)
    some <-
      (if isPresent (tags video) then
         t <- member (tags video) ;;
         Ok (Some (existsb (fun tag =>
                     JSString.includes (JSString.toLowerCase tag) term) t))
       else Ok None) ;;
    Ok (toBoolean some).

Definition filterVideos (videos : list Video)
           (selectedCategory searchTerm : string) : Res (list Video) :=
  filtered <-
    (if negb (String.eqb selectedCategory "All")
     then filterRes (categoryStage selectedCategory) videos
     else Ok videos) ;;
  if JSString.truthy (JSString.trim searchTerm)
  then filterRes (textStage searchTerm) filtered
  else Ok filtered.

Definition formatDuration (duration : option string)
  : Res (option string) :=
  (* if (!duration) return null *)
  if negb (match duration with
           | Some d => JSString.truthy d
           | None => false
           end)
  then Ok None
  else
    d <- member duration ;;
    let matched := JSRegExp.exec durationPattern d in
    (* if (!match) return null *)
    if negb (isPresent matched) then Ok None
    else
      m <- member matched ;;
      let hours := durationComponent m 1 in
      let minutes := durationComponent m 2 in
      let seconds := durationComponent m 3 in
      Ok (Some (renderDuration hours minutes seconds)).

End Faulting.

(** ** Reference definitions, in the words of the specification

    These are not translations of code: each one writes down a notion the
    specification uses, and the properties of Part II compare the embedded
    code with them. *)

Module Spec.

(** The tags of a record, an absent sequence read as the empty one. *)
Definition tagsOf (video : Video) : list string :=
  match tags video with
  | Some t => t
  | None => []
  end.

(** The record [video] with an absent [tags] replaced by the empty
    sequence. *)
Definition withTags (video : Video) : Video :=
  mkVideo (id video) (title video) (description video) (videoUrl video)
          (thumbnail video) (category video) (Some (tagsOf video))
          (duration video).

(** [term] occurs in [text] as a substring, letter case ignored. *)
Definition occursIgnoringCase (term text : string) : Prop :=
  exists pre post,
    JSString.toLowerCase text
    = (pre ++ JSString.toLowerCase term ++ post)%string.

(** The category condition of the filter. *)
Definition categoryMatches (selectedCategory : string) (video : Video)
  : Prop :=
  selectedCategory = "All"
  \/ category video = selectedCategory
  \/ In selectedCategory (tagsOf video).

(** [term] occurs in the title, in the description or in some tag. *)
Definition textMatches (term : string) (video : Video) : Prop :=
  occursIgnoringCase term (title video)
  \/ occursIgnoringCase term (description video)
  \/ exists tag, In tag (tagsOf video) /\ occursIgnoringCase term tag.

(** The condition under which a record is visible. *)
Definition visible (selectedCategory searchTerm : string) (video : Video)
  : Prop :=
  categoryMatches selectedCategory video
  /\ (JSString.trim searchTerm = "" \/ textMatches searchTerm video).

(** The taxonomy without the sentinel, in its fixed order, and the keyword
    set of each of its categories. *)
Definition taxonomy : list string :=
  ["Music"; "Interviews"; "Podcasts"; "Freestyle"; "Off The Porch"].

Definition keywords (cat : string) : list string :=
  if String.eqb cat "Music" then
    ["music"; "song"; "album"; "artist"; "beat"; "track"]
  else if String.eqb cat "Interviews" then
    ["interview"; "conversation"; "talk"; "discussion"]
  else if String.eqb cat "Podcasts" then
    ["podcast"; "episode"; "show"]
  else if String.eqb cat "Freestyle" then
    ["freestyle"; "cypher"; "bars"; "rap"; "flow"]
  else if String.eqb cat "Off The Porch" then
    ["off the porch"; "porch"; "street"; "hood"]
  else [].

(** Some keyword of [cat] occurs in the lower-cased combination of the two
    texts. *)
Definition mentions (title description cat : string) : Prop :=
  exists keyword,
    In keyword (keywords cat)
    /\ exists pre post,
         JSString.toLowerCase (title ++ " " ++ description)
         = (pre ++ keyword ++ post)%string.

(** [l] lists elements of [reference] in the order of [reference]. *)
Inductive inOrderOf {A} : list A -> list A -> Prop :=
| inOrderOf_nil : forall reference, inOrderOf [] reference
| inOrderOf_take : forall x l reference,
    inOrderOf l reference -> inOrderOf (x :: l) (x :: reference)
| inOrderOf_skip : forall x l reference,
    inOrderOf l reference -> inOrderOf l (x :: reference).

(** The preferred order of the category list, and the order it induces
    together with a collation [collate] of the other categories. *)
Definition preferredOrder : list string :=
  ["All"; "Music"; "Interviews"; "Podcasts"; "Freestyle"; "Off The Porch"].

Definition precedes (collate : string -> string -> Z) (a b : string)
  : Prop :=
  (exists i j, nth_error preferredOrder i = Some a
               /\ nth_error preferredOrder j = Some b /\ i <= j)
  \/ (In a preferredOrder /\ ~ In b preferredOrder)
  \/ (~ In a preferredOrder /\ ~ In b preferredOrder
      /\ (collate a b <= 0)%Z).

(** Two decimal digits, a leading zero added below ten. *)
Definition twoDigits (n : N) : string :=
  if (n <? 10)%N then ("0" ++ JSNumber.toString n)%string
  else JSNumber.toString n.

(** [H:MM:SS] when there are hours, [M:SS] otherwise. *)
Definition clock (hours minutes seconds : N) : string :=
  if (hours =? 0)%N then
    (JSNumber.toString minutes ++ ":" ++ twoDigits seconds)%string
  else
    (JSNumber.toString hours ++ ":" ++ twoDigits minutes ++ ":"
     ++ twoDigits seconds)%string.

(** The duration text [PT<H>H<M>M<S>S], a component left out when it is
    absent. *)
Definition part (n : option N) (unit : string) : string :=
  match n with
  | Some v => (JSNumber.toString v ++ unit)%string
  | None => ""
  end.

Definition encode (hours minutes seconds : option N) : string :=
  ("PT" ++ part hours "H" ++ part minutes "M" ++ part seconds "S")%string.

Definition orZero (n : option N) : N :=
  match n with Some v => v | None => 0%N end.

End Spec.

(** ** Auxiliary notions of the proofs *)

(** The single predicate that the two stages of [filterVideos] amount to. *)
Definition keeps (selectedCategory searchTerm : string) (video : Video)
  : bool :=
  (String.eqb selectedCategory "All"
   || categoryStage selectedCategory video)
  && (negb (JSString.truthy (JSString.trim searchTerm))
      || textStage searchTerm video).

(** Some keyword of [cat] occurs in [content]. *)
Definition mentionsb (content cat : string) : bool :=
  existsb (JSString.includes content) (Spec.keywords cat).

(** [s] consists of decimal digits. *)
Fixpoint allDigits (s : string) : bool :=
  match s with
  | EmptyString => true
  | String c r => JSNumber.isDigit c && allDigits r
  end.

(** [s] begins with a decimal digit. *)
Definition digitAhead (s : string) : bool :=
  match s with
  | EmptyString => false
  | String c _ => JSNumber.isDigit c
  end.

(** One optional component of the duration pattern: [(?:(\d+)u)?]. *)
Definition componentRe (i : nat) (unit : ascii) : JSRegExp.regex :=
  JSRegExp.Opt (JSRegExp.Cat (JSRegExp.Group i JSRegExp.Digits)
                             (JSRegExp.Lit unit)).

(** The captures after group [i] has taken the text of [n], if any. *)
Definition withPart (i : nat) (n : option N) (caps : JSRegExp.captures)
  : JSRegExp.captures :=
  match n with
  | Some v => JSRegExp.setCapture i (JSNumber.toString v) caps
  | None => caps
  end.

(** [tail] does not begin with digits followed by [unit]. *)
Definition unitFree (unit : ascii) (tail : string) : Prop :=
  exists ds rest,
    tail = (ds ++ rest)%string /\ allDigits ds = true
    /\ digitAhead rest = false
    /\ JSString.startsWith rest (String unit "") = false.

(** The first occurrence of each element, in order. *)
Fixpoint firstOccurrences (l : list string) : list string :=
  match l with
  | [] => []
  | x :: r =>
      x :: filter (fun y => negb (String.eqb y x)) (firstOccurrences r)
  end.

Definition notIn (acc : list string) (y : string) : bool :=
  negb (existsb (String.eqb y) acc).

(** ** Sample records *)

Definition exampleA : Video :=
  mkVideo "a" "Summer anthem" "Official video" "https://youtu.be/a" None
          "Music" (Some ["Music"]) (Some "PT4M13S").

Definition exampleB : Video :=
  mkVideo "b" "Park session" "" "https://youtu.be/b" None
          "All" (Some ["Freestyle"; "All"]) None.

Definition exampleC : Video :=
  mkVideo "c" "Block party" "" "https://youtu.be/c" None
          "Music" (Some ["Zed"; "apple"; "Music"]) None.

(** A record as the admin form seeds it: category ["All"], tags [["All"]]. *)
Definition seededVideo : Video :=
  mkVideo "n" "New video" "" "https://youtu.be/n" None
          "All" (Some ["All"]) None.

(** ** Thumbnail of a record ([page.tsx], lines 179-189) *)

Module UrlRegExp.

(** The fragment of the pattern language [getThumbnailUrl] uses. *)
Inductive regex : Type :=
| Str (s : string)                 (* a sequence of literal characters *)
| NoneOf (excluded : list ascii)   (* [^...]+ , greedy *)
| Cat (r1 r2 : regex)              (* r1 r2 *)
| Alt (r1 r2 : regex)              (* r1 | r2 , left alternative first *)
| Group (i : nat) (r : regex).     (* ( r ) , capture number i *)

(** The input after the literal text [lit], when the input begins with it. *)
Fixpoint literal (lit s : string) {struct lit} : option string :=
  match lit with
  | EmptyString => Some s
  | String a lit' =>
      match s with
      | EmptyString => None
      | String b s' => if Ascii.eqb a b then literal lit' s' else None
      end
  end.

Definition allowed (excluded : list ascii) (c : ascii) : bool :=
  negb (existsb (Ascii.eqb c) excluded).

(** [[^...]+] with backtracking: the longest run first. *)
Fixpoint runThen {R} (excluded : list ascii) (s : string)
         (k : string -> option R) : option R :=
  match s with
  | EmptyString => None
  | String c r =>
      if allowed excluded c then
        match runThen excluded r k with
        | Some res => Some res
        | None => k r
        end
      else None
  end.

Fixpoint matchAt (r : regex) (s : string) (caps : JSRegExp.captures)
         (k : string -> JSRegExp.captures -> option JSRegExp.captures)
  : option JSRegExp.captures :=
  match r with
  | Str lit =>
      match literal lit s with
      | Some s' => k s' caps
      | None => None
      end
  | NoneOf excluded => runThen excluded s (fun s' => k s' caps)
  | Cat r1 r2 =>
      matchAt r1 s caps (fun s' caps' => matchAt r2 s' caps' k)
  | Alt r1 r2 =>
      match matchAt r1 s caps k with
      | Some res => Some res
      | None => matchAt r2 s caps k
      end
  | Group i r1 =>
      matchAt r1 s caps
              (fun s' caps' =>
                 k s' (JSRegExp.setCapture i (JSRegExp.consumed s s') caps'))
  end.

(** [s.match(r)]: the match at the leftmost position that has one. *)
Fixpoint exec (r : regex) (s : string) : option JSRegExp.captures :=
  match matchAt r s JSRegExp.noCaptures (fun _ caps => Some caps) with
  | Some caps => Some caps
  | None =>
      match s with
      | EmptyString => None
      | String _ s' => exec r s'
      end
  end.

End UrlRegExp.

(** [/(?:youtube\.com\/watch\?v=|youtu\.be\/|youtube\.com\/embed\/)([^&\n?#]+)/] *)
Definition videoIdPattern : UrlRegExp.regex :=
  UrlRegExp.Cat
    (UrlRegExp.Alt (UrlRegExp.Str "youtube.com/watch?v=")
       (UrlRegExp.Alt (UrlRegExp.Str "youtu.be/")
                      (UrlRegExp.Str "youtube.com/embed/")))
    (UrlRegExp.Group 1
       (UrlRegExp.NoneOf ["&"%char; "010"%char; "?"%char; "#"%char])).

(** Truthiness of an optional string: [undefined] and [""] are falsy. *)
Definition present (v : option string) : bool :=
  match v with
  | Some s => JSString.truthy s
  | None => false
  end.

Definition getThumbnailUrl (video : Video) : option string :=
  if present (thumbnail video) then thumbnail video
  else
    (* video.videoUrl.match(...)?.[1] *)
    let videoId :=
      match UrlRegExp.exec videoIdPattern (videoUrl video) with
      | Some m => m 1
      | None => None
      end in
    match videoId with
    | Some v =>
        if JSString.truthy v
        then Some ("https://img.youtube.com/vi/" ++ v
                   ++ "/maxresdefault.jpg")%string
        else None
    | None => None
    end.

(** ** The admin form ([VideoForm], lines 47-160 and the category check
    boxes) *)

(** The fields of a record, under names the form's own fields do not hide. *)
Definition videoId_ (video : Video) : string := id video.
Definition videoTitle (video : Video) : string := title video.
Definition videoDescription (video : Video) : string := description video.
Definition videoLink (video : Video) : string := videoUrl video.
Definition videoCategory (video : Video) : string := category video.
Definition videoTags (video : Video) : option (list string) := tags video.
Definition videoThumbnail (video : Video) : option string := thumbnail video.

Module VideoForm.

Definition categories : list string :=
  ["All"; "Music"; "Interviews"; "Podcasts"; "Freestyle"; "Off The Porch"].

(** [a || b] on strings. *)
Definition orElse (a b : string) : string :=
  if JSString.truthy a then a else b.

(** The state [formData]. *)
Record FormData := mkFormData {
  title : string;
  description : string;
  videoUrl : string;
  category : string;
  tags : list string;
  thumbnail : string
}.

(** The state of the component that the form logic reads and writes. *)
Record State := mkState {
  formData : FormData;
  selectedCategories : list string
}.

(** The initial values given to [useState]. *)
Definition initial : State :=
  mkState (mkFormData "" "" "" "" [] "") [].

Definition clearFormData (s : State) : State :=
  mkState (mkFormData "" "" "" "All" ["All"] "") ["All"].

(** The effect that runs when the [video] prop changes. *)
Definition videoEffect (video : option Video) (s : State) : State :=
  match video with
  | Some v =>
      let videoTagsOrAll :=
        match videoTags v with
        | Some t => t
        | None => ["All"]
        end in
      mkState
        (mkFormData (orElse (videoTitle v) "")
                    (orElse (videoDescription v) "")
                    (orElse (videoLink v) "")
                    (orElse (videoCategory v) "All")
                    videoTagsOrAll
                    (match videoThumbnail v with
                     | Some t => orElse t ""
                     | None => ""
                     end))
        videoTagsOrAll
  | None =>
      mkState (mkFormData "" "" "" "All" ["All"] "") ["All"]
  end.

(** Modelled from the spec: the result of [getYouTubeVideoData], declared in
    [lib/database], which is not among the sources; the fields are those
    [handleYouTubeUrlChange] reads. *)
Record YouTubeData := mkYouTubeData {
  ytTitle : string;
  ytDescription : string;
  ytThumbnail : string
}.

(** [newCategories[0] || 'All'] *)
Definition firstOrAll (newCategories : list string) : string :=
  match nth_error newCategories 0 with
  | Some c => orElse c "All"
  | None => "All"
  end.

(** The first update of [handleYouTubeUrlChange]: the link is stored. *)
Definition setVideoUrl (url : string) (s : State) : State :=
  let prev := formData s in
  mkState (mkFormData (title prev) (description prev) url (category prev)
                      (tags prev) (thumbnail prev))
          (selectedCategories s).

(** The updates [handleYouTubeUrlChange] makes once the metadata of the link
    are there; they act on the state of that moment. *)
Definition applyYouTubeData (youtubeData : YouTubeData) (s : State) : State :=
  let prev := formData s in
  let autoCategories :=
    detectCategoriesFromContent (ytTitle youtubeData)
                                (ytDescription youtubeData) in
  let nonEmpty := (0 <? List.length autoCategories)%nat in
  mkState
    (mkFormData
       (orElse (title prev) (ytTitle youtubeData))
       (orElse (description prev)
               (substring 0 500 (ytDescription youtubeData)))
       (videoUrl prev)
       (if nonEmpty
        then match autoCategories with
             | c :: _ => c
             | [] => "All"
             end
        else "All")
       (if nonEmpty then autoCategories else ["All"])
       (ytThumbnail youtubeData))
    (if nonEmpty then autoCategories else ["All"]).

(** [handleYouTubeUrlChange] when nothing else happens to the form before
    the metadata arrive; [fetched] is what the metadata provider answered:
    [None] when no identifier was extracted from the link, when the provider
    had nothing, or when the request failed. *)
Definition handleYouTubeUrlChange (url : string)
           (fetched : option YouTubeData) (s : State) : State :=
  match fetched with
  | None => setVideoUrl url s
  | Some youtubeData => applyYouTubeData youtubeData (setVideoUrl url s)
  end.

(** The [onChange] handler of the check box of [category]; [checked] is
    [e.target.checked]. *)
Definition onCategoryChange (checked : bool) (category0 : string) (s : State)
  : State :=
  let prev := formData s in
  let newCategories :=
    if checked then selectedCategories s ++ [category0]
    else
      let newCategories :=
        filter (fun c => negb (String.eqb c category0)) (selectedCategories s) in
      if (List.length newCategories =? 0)%nat
      then push newCategories "All"
      else newCategories in
  mkState
    (mkFormData (title prev) (description prev) (videoUrl prev)
                (firstOrAll newCategories) newCategories (thumbnail prev))
    newCategories.

(** The [onChange] handlers of the title and description inputs. *)
Definition onTitleChange (value : string) (s : State) : State :=
  let prev := formData s in
  mkState (mkFormData value (description prev) (videoUrl prev)
                      (category prev) (tags prev) (thumbnail prev))
          (selectedCategories s).

Definition onDescriptionChange (value : string) (s : State) : State :=
  let prev := formData s in
  mkState (mkFormData (title prev) value (videoUrl prev)
                      (category prev) (tags prev) (thumbnail prev))
          (selectedCategories s).

(** [handleOpenChange]: closing the dialog of a new video clears the form. *)
Definition handleOpenChange (isOpen : bool) (video : option Video)
           (s : State) : State :=
  if negb isOpen && negb (match video with Some _ => true | None => false end)
  then clearFormData s
  else s.

(** What [handleSubmit] asks of the store. *)
Inductive Request : Type :=
| Invalid                                   (* the error toast, nothing sent *)
| UpdateVideo (id0 : string) (fields : FormData)
| AddVideo (fields : FormData).

Definition handleSubmit (video : option Video) (s : State) : Request :=
  let fd := formData s in
  if negb (JSString.truthy (title fd)) || negb (JSString.truthy (videoUrl fd))
     || (List.length (selectedCategories s) =? 0)%nat
  then Invalid
  else
    (* video?.id *)
    match video with
    | Some v =>
        if JSString.truthy (videoId_ v) then UpdateVideo (videoId_ v) fd
        else AddVideo (mkFormData (title fd) (description fd) (videoUrl fd)
                                  (category fd) (selectedCategories s)
                                  (thumbnail fd))
    | None =>
        AddVideo (mkFormData (title fd) (description fd) (videoUrl fd)
                             (category fd) (selectedCategories s)
                             (thumbnail fd))
    end.

(** What can happen to the form between two renderings. *)
Inductive Event : Type :=
| Clear
| VideoChanged (video : option Video)
| UrlChanged (url : string) (fetched : option YouTubeData)
| MetadataArrived (youtubeData : YouTubeData)   (* after other events *)
| CategoryChanged (checked : bool) (category0 : string)
| TitleChanged (value : string)
| DescriptionChanged (value : string)
| OpenChanged (isOpen : bool) (video : option Video).

Definition step (s : State) (e : Event) : State :=
  match e with
  | Clear => clearFormData s
  | VideoChanged video => videoEffect video s
  | UrlChanged url fetched => handleYouTubeUrlChange url fetched s
  | MetadataArrived youtubeData => applyYouTubeData youtubeData s
  | CategoryChanged checked category0 => onCategoryChange checked category0 s
  | TitleChanged value => onTitleChange value s
  | DescriptionChanged value => onDescriptionChange value s
  | OpenChanged isOpen video => handleOpenChange isOpen video s
  end.

(** The state after the events [events], from the initial state. *)
Definition run (events : list Event) : State := fold_left step events initial.

End VideoForm.

(** The property every event of the form keeps: the tags of the form are the
    selected categories. *)
Definition tagsFollowSelection (s : VideoForm.State) : Prop :=
  VideoForm.tags (VideoForm.formData s) = VideoForm.selectedCategories s.

(** The characters the identifier of a video may not contain. *)
Definition idExcluded : list ascii :=
  ["&"%char; "010"%char; "?"%char; "#"%char].

(** The character [c] does not occur in [s]. *)
Fixpoint lacks (c : ascii) (s : string) : bool :=
  match s with
  | EmptyString => true
  | String d r => negb (Ascii.eqb c d) && lacks c r
  end.

(** Every character of [s] may be part of an identifier. *)
Fixpoint allAllowed (s : string) : bool :=
  match s with
  | EmptyString => true
  | String c r => UrlRegExp.allowed idExcluded c && allAllowed r
  end.

(** An identifier cannot go on into [rest]. *)
Definition stops (rest : string) : bool :=
  match rest with
  | EmptyString => true
  | String c _ => negb (UrlRegExp.allowed idExcluded c)
  end.

(** The three shapes of link the pattern knows. *)
Definition linkMarkers : list string :=
  ["youtube.com/watch?v="; "youtu.be/"; "youtube.com/embed/"].

(** The last of the loads [loads] that observed a category, if any. *)
Definition lastObserving (loads : list (list Video)) : option (list Video) :=
  fold_left (fun acc videoList =>
               if (0 <? List.length (allUniqueCategories videoList))%nat
               then Some videoList else acc)
            loads None.

(** [x] is a non-empty category or tag of some record of [videoList]. *)
Definition observedIn (videoList : list Video) (x : string) : Prop :=
  x <> ""
  /\ exists video, In video videoList
                   /\ (category video = x \/ In x (Spec.tagsOf video)).

(** [s] is made of characters of the ASCII range, the text on which
    [JSString.toLowerCase] and [JSString.trim] are those of the program. *)
Fixpoint asciiText (s : string) : bool :=
  match s with
  | EmptyString => true
  | String c r => (nat_of_ascii c <? 128)%nat && asciiText r
  end.

(** [s] consists of white space only. *)
Fixpoint blank (s : string) : bool :=
  match s with
  | EmptyString => true
  | String c r => JSString.isSpace c && blank r
  end.

(* ================================================================== *)
(** * Part II: properties *)
(* ================================================================== *)

(** ** Substrings, lower-casing and trimming *)

Section StringFacts.

Import JSString.
Local Open Scope string_scope.

Lemma startsWith_iff (s p : string) :
  startsWith s p = true <-> exists r, s = p ++ r.
Proof.
  revert s; induction p as [|a p IH]; intros s; simpl.
  - split; [intros _; now exists s | reflexivity].
  - destruct s as [|b s].
    + split; [discriminate | intros [r Hr]; discriminate].
    + rewrite andb_true_iff, Ascii.eqb_eq, IH. split.
      * intros [-> [r ->]]. now exists r.
      * intros [r Hr]. injection Hr as -> ->. split; [reflexivity | now exists r].
Qed.

Lemma includes_iff (s sub : string) :
  includes s sub = true <-> exists pre post, s = pre ++ sub ++ post.
Proof.
  induction s as [|c s IH].
  - simpl. rewrite orb_false_r, startsWith_iff. split.
    + intros [r Hr]. exists "", r. exact Hr.
    + intros [pre [post H]]. destruct pre; [now exists post | discriminate].
  - cbn [includes]. rewrite orb_true_iff, startsWith_iff, IH. split.
    + intros [[r Hr] | [pre [post H]]].
      * exists "", r. exact Hr.
      * exists (String c pre), post. simpl. now rewrite H.
    + intros [pre [post H]]. destruct pre as [|a pre].
      * left. now exists post.
      * right. simpl in H. injection H as _ H. now exists pre, post.
Qed.

Lemma append_assoc (a b c : string) : (a ++ b) ++ c = a ++ b ++ c.
Proof. induction a; simpl; congruence. Qed.

Lemma append_empty_r (a : string) : a ++ "" = a.
Proof. induction a; simpl; congruence. Qed.

(** An occurrence of a text is an occurrence of each of its parts. *)
Lemma includes_part (s a sub b : string) :
  includes s (a ++ sub ++ b) = true -> includes s sub = true.
Proof.
  rewrite !includes_iff. intros [pre [post H]].
  exists (pre ++ a), (b ++ post).
  now rewrite H, !append_assoc.
Qed.

Lemma includes_empty (s : string) : includes s "" = true.
Proof. destruct s; reflexivity. Qed.

Lemma toLowerCase_app (a b : string) :
  toLowerCase (a ++ b) = toLowerCase a ++ toLowerCase b.
Proof. induction a; simpl; congruence. Qed.

Lemma trimStart_suffix (s : string) : exists pre, s = pre ++ trimStart s.
Proof.
  induction s as [|c s [pre IH]]; simpl.
  - now exists "".
  - destruct (isSpace c).
    + exists (String c pre). simpl. now rewrite <- IH.
    + now exists "".
Qed.

Lemma trimEnd_prefix (s : string) : exists post, s = trimEnd s ++ post.
Proof.
  induction s as [|c s [post IH]]; simpl.
  - now exists "".
  - destruct (trimEnd s) as [|d r] eqn:E.
    + destruct (isSpace c).
      * now exists (String c s).
      * exists s. reflexivity.
    + exists post. simpl. now rewrite IH.
Qed.

(** The trimmed text is a part of the text. *)
Lemma trim_part (s : string) : exists pre post, s = pre ++ trim s ++ post.
Proof.
  unfold trim.
  destruct (trimStart_suffix s) as [pre Hpre].
  destruct (trimEnd_prefix (trimStart s)) as [post Hpost].
  exists pre, post. now rewrite <- Hpost.
Qed.

Lemma trimEnd_idempotent (s : string) : trimEnd (trimEnd s) = trimEnd s.
Proof.
  induction s as [|c s IH]; simpl; [reflexivity|].
  destruct (trimEnd s) as [|d r] eqn:E.
  - destruct (isSpace c) eqn:Ec; simpl; [reflexivity | now rewrite Ec].
  - remember (String d r) as t eqn:Et. simpl. rewrite IH.
    subst t. reflexivity.
Qed.

Lemma trimStart_head (s : string) :
  trimStart s = "" \/ exists c r, trimStart s = String c r /\ isSpace c = false.
Proof.
  induction s as [|c s IH]; simpl; [now left|].
  destruct (isSpace c) eqn:Ec; [exact IH | right; now exists c, s].
Qed.

Lemma trimEnd_head (c : ascii) (r : string) :
  isSpace c = false -> exists r', trimEnd (String c r) = String c r'.
Proof.
  intros Hc. simpl. destruct (trimEnd r).
  - rewrite Hc. now exists "".
  - eexists; reflexivity.
Qed.

Lemma trim_idempotent (s : string) : trim (trim s) = trim s.
Proof.
  unfold trim.
  destruct (trimStart_head s) as [-> | [c [r [-> Hc]]]]; [reflexivity|].
  destruct (trimEnd_head c r Hc) as [r' Hr']. rewrite Hr'.
  simpl trimStart. rewrite Hc. rewrite <- Hr'. apply trimEnd_idempotent.
Qed.

End StringFacts.

(** ** The video filter *)

Section FilterFacts.

Lemma occurs_reflect (term text : string) :
  JSString.includes (JSString.toLowerCase text) (JSString.toLowerCase term)
  = true
  <-> Spec.occursIgnoringCase term text.
Proof. apply includes_iff. Qed.

Lemma JSArray_includes_In (arr : list string) (x : string) :
  JSArray.includes arr x = true <-> In x arr.
Proof.
  unfold JSArray.includes. rewrite existsb_exists. split.
  - intros [y [Hy Hxy]]. apply String.eqb_eq in Hxy. now subst.
  - intros H. exists x. split; [exact H | apply String.eqb_refl].
Qed.

Lemma categoryStage_spec (selectedCategory : string) (video : Video) :
  categoryStage selectedCategory video = true
  <-> category video = selectedCategory
      \/ In selectedCategory (Spec.tagsOf video).
Proof.
  unfold categoryStage, Spec.tagsOf.
  rewrite orb_true_iff, String.eqb_eq.
  destruct (tags video) as [t|]; simpl.
  - now rewrite JSArray_includes_In.
  - split; (intros [H|H]; [now left | easy]).
Qed.

Lemma textStage_spec (searchTerm : string) (video : Video) :
  textStage searchTerm video = true <-> Spec.textMatches searchTerm video.
Proof.
  unfold textStage, Spec.textMatches, Spec.tagsOf. cbv zeta.
  rewrite !orb_true_iff, !occurs_reflect.
  destruct (tags video) as [t|]; simpl.
  - split.
    + intros [[H|H]|H]; [now left | now right; left | right; right].
      apply existsb_exists in H. destruct H as [tag [Hin Htag]].
      exists tag. split; [exact Hin | now apply occurs_reflect].
    + intros [H|[H|[tag [Hin Htag]]]];
        [now left; left | now left; right | right].
      apply existsb_exists. exists tag.
      split; [exact Hin | now apply occurs_reflect].
  - split.
    + intros [[H|H]|H]; [now left | now right; left | discriminate].
    + intros [H|[H|[tag [[] _]]]]; [now left; left | now left; right].
Qed.

(** A term that matches a record also matches it once trimmed. *)
Lemma textStage_trim (searchTerm : string) (video : Video) :
  textStage searchTerm video = true ->
  textStage (JSString.trim searchTerm) video = true.
Proof.
  destruct (trim_part searchTerm) as [pre [post Hparts]].
  assert (Hinc : forall text,
             JSString.includes text (JSString.toLowerCase searchTerm) = true ->
             JSString.includes text
               (JSString.toLowerCase (JSString.trim searchTerm)) = true).
  { intros text. rewrite Hparts at 1. rewrite !toLowerCase_app.
    apply includes_part. }
  unfold textStage. rewrite !orb_true_iff.
  intros [[H|H]|H]; auto.
  right. destruct (tags video) as [t|]; [|discriminate]. simpl in *.
  rewrite existsb_exists in *. destruct H as [tag [Hin Htag]].
  exists tag. auto.
Qed.

Lemma filter_true {A} (l : list A) : filter (fun _ => true) l = l.
Proof. induction l; simpl; congruence. Qed.

Lemma filter_filter {A} (f g : A -> bool) (l : list A) :
  filter f (filter g l) = filter (fun x => g x && f x) l.
Proof.
  induction l as [|x l IH]; simpl; [reflexivity|].
  destruct (g x); simpl; [destruct (f x)|]; now rewrite IH.
Qed.

Lemma filter_implied {A} (f g : A -> bool) (l : list A) :
  (forall x, f x = true -> g x = true) ->
  filter f (filter g l) = filter f l.
Proof.
  intros H. rewrite filter_filter. apply filter_ext. intros x.
  destruct (f x) eqn:E; [now rewrite (H x E) | apply andb_false_r].
Qed.

Lemma filterVideos_keeps (videos : list Video)
      (selectedCategory searchTerm : string) :
  filterVideos videos selectedCategory searchTerm
  = filter (keeps selectedCategory searchTerm) videos.
Proof.
  unfold filterVideos, keeps.
  destruct (String.eqb selectedCategory "All");
    destruct (JSString.truthy (JSString.trim searchTerm)); simpl.
  - reflexivity.
  - now rewrite filter_true.
  - apply filter_filter.
  - apply filter_ext. intros v. now rewrite andb_true_r.
Qed.

Lemma truthy_false_iff (s : string) : JSString.truthy s = false <-> s = "".
Proof. destruct s; simpl; split; congruence. Qed.

Lemma keeps_spec (selectedCategory searchTerm : string) (video : Video) :
  keeps selectedCategory searchTerm video = true
  <-> Spec.visible selectedCategory searchTerm video.
Proof.
  unfold keeps, Spec.visible, Spec.categoryMatches.
  rewrite andb_true_iff, !orb_true_iff, negb_true_iff, truthy_false_iff,
    String.eqb_eq, categoryStage_spec, textStage_spec.
  tauto.
Qed.

End FilterFacts.

(** C2. A record is in the result of the filter exactly when it is in the
    input and satisfies the category condition (the selection is ["All"], or
    equals the record's [category], or is one of its tags) and the text
    condition (the trimmed term is empty, or the term occurs, letter case
    ignored, in the title, the description or a tag); the result is the input
    filtered by that condition, so the order of the input is kept.  On the
    two records [A] (category Music, tags Music) and [B] (category All, tags
    Freestyle and All) the four results of the specification are obtained,
    the third one for an [A] whose title and description do not contain
    "free". *)
Theorem filterVideos_visible :
  (forall videos selectedCategory searchTerm,
      (exists keep : Video -> bool,
          (forall video, keep video = true
                         <-> Spec.visible selectedCategory searchTerm video)
          /\ filterVideos videos selectedCategory searchTerm
             = filter keep videos)
      /\ (forall video,
             In video (filterVideos videos selectedCategory searchTerm)
             <-> In video videos
                 /\ Spec.visible selectedCategory searchTerm video))
  /\ (forall A B,
         category A = "Music" -> tags A = Some ["Music"] ->
         category B = "All" -> tags B = Some ["Freestyle"; "All"] ->
         filterVideos [A; B] "Music" "" = [A]
         /\ filterVideos [A; B] "All" "" = [A; B]
         /\ (JSString.includes (JSString.toLowerCase (title A)) "free" = false ->
             JSString.includes (JSString.toLowerCase (description A)) "free"
             = false ->
             filterVideos [A; B] "All" "free" = [B])
         /\ filterVideos [A; B] "Freestyle" "" = [B]).
Proof.
  split.
  - intros videos sel term. split.
    + exists (keeps sel term). split; [apply keeps_spec | apply filterVideos_keeps].
    + intros video. rewrite filterVideos_keeps, filter_In, keeps_spec. tauto.
  - intros A B HcA HtA HcB HtB.
    unfold filterVideos, categoryStage, textStage. simpl.
    change (JSString.lowerChar "f") with "f"%char.
    change (JSString.lowerChar "r") with "r"%char.
    change (JSString.lowerChar "e") with "e"%char.
    rewrite HcA, HtA, HcB, HtB. simpl.
    repeat split.
    intros -> ->. simpl. now rewrite !orb_true_r.
Qed.

Lemma filterVideos_visible_witness :
  filterVideos [exampleA; exampleB] "All" "free" = [exampleB].
Proof.
  exact (proj1 (proj2 (proj2 (proj2 filterVideos_visible exampleA exampleB
                                     eq_refl eq_refl eq_refl eq_refl)))
               eq_refl eq_refl).
Defined.

(** C8. Filtering a filtered list again with the same category and term
    changes nothing. *)
Theorem filterVideos_idempotent :
  forall videos selectedCategory searchTerm,
    filterVideos (filterVideos videos selectedCategory searchTerm)
                 selectedCategory searchTerm
    = filterVideos videos selectedCategory searchTerm.
Proof.
  intros videos sel term. rewrite !filterVideos_keeps.
  apply filter_implied. auto.
Qed.

(** C3, as stated, fails: the term [" free"] trims to ["free"], which occurs
    in the title ["Freestyle"], yet the record is not kept, and filtering
    with the term differs from filtering with its trimmed value. *)
Lemma filterVideos_trim_counterexample :
  let video := mkVideo "v" "Freestyle" "" "" None "Music" None None in
  JSString.truthy (JSString.trim " free") = true
  /\ JSString.includes (JSString.toLowerCase (title video))
       (JSString.toLowerCase (JSString.trim " free")) = true
  /\ textStage " free" video = false
  /\ filterVideos [video] "All" " free"
     <> filterVideos [video] "All" (JSString.trim " free").
Proof. repeat split; try reflexivity. discriminate. Qed.

(** C3, amended.  When the trimmed term is not empty, the text stage matches
    against the term as it was given: a record is kept iff the untrimmed
    term occurs, letter case ignored, in the title, the description or a
    tag.  Filtering with a term gives the records of the result for the
    trimmed term that match the untrimmed term. *)
Theorem filterVideos_untrimmed :
  forall videos selectedCategory searchTerm,
    JSString.truthy (JSString.trim searchTerm) = true ->
    (forall video,
        textStage searchTerm video = true
        <-> Spec.textMatches searchTerm video)
    /\ filterVideos videos selectedCategory searchTerm
       = filter (textStage searchTerm)
                (filterVideos videos selectedCategory
                              (JSString.trim searchTerm))
    /\ (forall video,
           In video (filterVideos videos selectedCategory searchTerm) ->
           In video (filterVideos videos selectedCategory
                                  (JSString.trim searchTerm))).
Proof.
  intros videos sel term Hterm.
  assert (Heq : filterVideos videos sel term
                = filter (textStage term)
                         (filterVideos videos sel (JSString.trim term))).
  { unfold filterVideos. rewrite trim_idempotent, Hterm.
    symmetry. apply filter_implied. apply textStage_trim. }
  split; [intros video; apply textStage_spec | split; [exact Heq|]].
  intros video. rewrite Heq, filter_In. tauto.
Qed.

Lemma filterVideos_untrimmed_witness :
  filterVideos [exampleB] "All" " free"
  = filter (textStage " free") (filterVideos [exampleB] "All" (JSString.trim " free")).
Proof.
  exact (proj1 (proj2 (filterVideos_untrimmed
                         [exampleB] "All" " free" eq_refl))).
Defined.

(** ** The category auto-detector *)

Section DetectorFacts.

Lemma mentionsb_spec (title description cat : string) :
  mentionsb (JSString.toLowerCase (title ++ " " ++ description)) cat = true
  <-> Spec.mentions title description cat.
Proof.
  unfold mentionsb, Spec.mentions. rewrite existsb_exists.
  split; intros [keyword [Hin H]]; exists keyword; split; trivial;
    now apply includes_iff.
Qed.

(** The chain of tests of the code selects, from the taxonomy, the
    categories one of whose keywords occurs. *)
Lemma detect_filter (title description : string) :
  detectCategoriesFromContent title description
  = match filter (mentionsb (JSString.toLowerCase
                               (title ++ " " ++ description)))
                 Spec.taxonomy with
    | [] => ["Music"]
    | l => l
    end.
Proof.
  unfold detectCategoriesFromContent, mentionsb, Spec.taxonomy, push.
  cbv zeta.
  generalize (JSString.includes
                (JSString.toLowerCase (title ++ " " ++ description))).
  intros has. simpl.
  rewrite ?orb_false_r, ?orb_assoc.
  generalize (has "music" || has "song" || has "album" || has "artist"
              || has "beat" || has "track").
  generalize (has "interview" || has "conversation" || has "talk"
              || has "discussion").
  generalize (has "podcast" || has "episode" || has "show").
  generalize (has "freestyle" || has "cypher" || has "bars" || has "rap"
              || has "flow").
  generalize (has "off the porch" || has "porch" || has "street"
              || has "hood").
  intros [] [] [] [] []; reflexivity.
Qed.

Lemma detect_nonempty (title description : string) :
  detectCategoriesFromContent title description <> [].
Proof.
  rewrite detect_filter.
  destruct (filter _ Spec.taxonomy); discriminate.
Qed.

Lemma filter_inOrderOf {A} (f : A -> bool) (l : list A) :
  Spec.inOrderOf (filter f l) l.
Proof.
  induction l as [|x l IH]; simpl.
  - constructor.
  - destruct (f x); now constructor.
Qed.

End DetectorFacts.

(** C5. The detector returns a non-empty list of taxonomy categories in
    taxonomy order.  A category is listed iff one of its keywords occurs in
    the lower-cased combination of title and description, ["Music"] being
    listed also when no keyword of any category occurs; in that case the
    result is [["Music"]].  The three results of the specification are
    obtained. *)
Theorem detectCategoriesFromContent_keywords :
  (forall title description,
      let detected := detectCategoriesFromContent title description in
      let nothing :=
        forall cat, In cat Spec.taxonomy ->
                    ~ Spec.mentions title description cat in
      detected <> []
      /\ Spec.inOrderOf detected Spec.taxonomy
      /\ (forall cat,
             In cat detected
             <-> (In cat Spec.taxonomy /\ Spec.mentions title description cat)
                 \/ (cat = "Music" /\ nothing))
      /\ (nothing -> detected = ["Music"]))
  /\ detectCategoriesFromContent "Freestyle cypher at the park" ""
     = ["Freestyle"]
  /\ detectCategoriesFromContent "" "" = ["Music"]
  /\ detectCategoriesFromContent "Weekly podcast interview episode" ""
     = ["Interviews"; "Podcasts"].
Proof.
  split; [|repeat split; reflexivity].
  intros title description detected nothing. subst detected nothing.
  rewrite detect_filter.
  set (content := JSString.toLowerCase (title ++ " " ++ description)).
  assert (Hin : forall cat,
             In cat (filter (mentionsb content) Spec.taxonomy)
             <-> In cat Spec.taxonomy /\ Spec.mentions title description cat).
  { intros cat. rewrite filter_In, <- mentionsb_spec. reflexivity. }
  pose proof (filter_inOrderOf (mentionsb content) Spec.taxonomy) as Hord.
  destruct (filter (mentionsb content) Spec.taxonomy) as [|c l] eqn:E.
  - assert (Hnone : forall cat, In cat Spec.taxonomy ->
                                ~ Spec.mentions title description cat).
    { intros cat Hcat Hm. exact (proj2 (Hin cat) (conj Hcat Hm)). }
    split; [discriminate | split; [repeat constructor | split]].
    + intros cat. split.
      * intros [<-|[]]. right. now split.
      * intros [[Hcat Hm] | [-> _]]; [destruct (Hnone cat Hcat Hm) | now left].
    + reflexivity.
  - destruct (proj1 (Hin c) (or_introl eq_refl)) as [Hc Hm].
    split; [discriminate | split; [exact Hord | split]].
    + intros cat. rewrite Hin. split; [now left|].
      intros [H | [_ Hnone]]; [exact H | destruct (Hnone c Hc Hm)].
    + intros Hnone. destruct (Hnone c Hc Hm).
Qed.

Lemma detectCategoriesFromContent_keywords_witness :
  detectCategoriesFromContent "Untitled" "clip 7" = ["Music"].
Proof.
  refine (proj2 (proj2 (proj2 (proj1 detectCategoriesFromContent_keywords
                                     "Untitled" "clip 7"))) _).
  intros cat Hcat Hm. apply mentionsb_spec in Hm.
  simpl in Hcat.
  destruct Hcat as [<-|[<-|[<-|[<-|[<-|[]]]]]]; vm_compute in Hm;
    discriminate.
Defined.

(** ** Decimal text of numbers *)

Section NumberFacts.

Import JSNumber.
Local Open Scope string_scope.

Lemma length_append (a b : string) :
  String.length (a ++ b) = String.length a + String.length b.
Proof. induction a; simpl; congruence. Qed.

Lemma allDigits_app (a b : string) :
  allDigits (a ++ b) = allDigits a && allDigits b.
Proof.
  induction a as [|c a IH]; cbn [append allDigits]; [reflexivity|].
  rewrite IH. apply andb_assoc.
Qed.

Lemma digitChar_isDigit (d : N) : (d < 10)%N -> isDigit (digitChar d) = true.
Proof.
  intros H. unfold isDigit, digitChar.
  rewrite nat_ascii_embedding by lia.
  apply andb_true_iff. split; apply Nat.leb_le; lia.
Qed.

Lemma digitValue_digitChar (d : N) :
  (d < 10)%N -> digitValue (digitChar d) = d.
Proof.
  intros H. unfold digitValue, digitChar.
  rewrite nat_ascii_embedding by lia. lia.
Qed.

Lemma toDigits_acc (fuel : nat) (n : N) (acc : string) :
  toDigits fuel n acc = toDigits fuel n "" ++ acc.
Proof.
  revert n acc. induction fuel as [|f IH]; intros n acc; cbn [toDigits].
  - reflexivity.
  - destruct (n <? 10)%N; [reflexivity|].
    rewrite IH. rewrite (IH _ (String _ "")).
    rewrite append_assoc. reflexivity.
Qed.

Lemma toDigits_allDigits (fuel : nat) (n : N) :
  allDigits (toDigits fuel n "") = true.
Proof.
  revert n. induction fuel as [|f IH]; intros n; cbn [toDigits];
    [reflexivity|].
  assert (Hd : isDigit (digitChar (n mod 10)) = true).
  { apply digitChar_isDigit. apply N.mod_lt. discriminate. }
  destruct (n <? 10)%N.
  - cbn [allDigits]. rewrite Hd. reflexivity.
  - rewrite toDigits_acc, allDigits_app, IH. cbn [allDigits].
    rewrite Hd. reflexivity.
Qed.

Lemma toDigits_length (fuel : nat) (n : N) (acc : string) :
  String.length acc <= String.length (toDigits fuel n acc).
Proof.
  revert n acc. induction fuel as [|f IH]; intros n acc; cbn [toDigits].
  - apply Nat.le_refl.
  - destruct (n <? 10)%N.
    + apply Nat.le_succ_diag_r.
    + etransitivity; [|apply IH]. apply Nat.le_succ_diag_r.
Qed.

Lemma toDigits_succ_length (fuel : nat) (n : N) (acc : string) :
  S (String.length acc) <= String.length (toDigits (S fuel) n acc).
Proof.
  cbn [toDigits]. destruct (n <? 10)%N.
  - apply Nat.le_refl.
  - apply (toDigits_length fuel (n / 10) (String _ acc)).
Qed.

(** Reading back the digits written for [n] gives [n]. *)
Lemma parseDigits_toDigits (fuel : nat) (n : N) (rest : string) :
  (n < 2 ^ N.of_nat fuel)%N ->
  parseDigits 0 (toDigits fuel n "" ++ rest) = parseDigits n rest.
Proof.
  revert n rest. induction fuel as [|f IH]; intros n rest Hn.
  - change (2 ^ N.of_nat 0)%N with 1%N in Hn.
    assert (n = 0%N) by lia. subst. reflexivity.
  - assert (Hmod : (n mod 10 < 10)%N) by (apply N.mod_lt; discriminate).
    cbn [toDigits]. destruct (n <? 10)%N eqn:E.
    + apply N.ltb_lt in E. cbn [append parseDigits].
      rewrite digitChar_isDigit, digitValue_digitChar by exact Hmod.
      rewrite N.mod_small by exact E. reflexivity.
    + apply N.ltb_ge in E.
      rewrite toDigits_acc, append_assoc, IH.
      * cbn [append parseDigits].
        rewrite digitChar_isDigit, digitValue_digitChar by exact Hmod.
        rewrite <- N.div_mod by discriminate. reflexivity.
      * rewrite Nat2N.inj_succ, N.pow_succ_r' in Hn.
        apply N.Div0.div_lt_upper_bound. lia.
Qed.

Lemma toString_allDigits (n : N) : allDigits (toString n) = true.
Proof. apply toDigits_allDigits. Qed.

Lemma toString_nonempty (n : N) : toString n <> "".
Proof.
  unfold toString. intros H.
  pose proof (toDigits_succ_length (N.to_nat (N.log2 n)) n "") as Hlen.
  rewrite H in Hlen. cbn [String.length] in Hlen. lia.
Qed.

Lemma parseInt_toString (n : N) : parseInt (toString n) = n.
Proof.
  unfold parseInt, toString.
  rewrite <- (append_empty_r (toDigits _ n "")).
  rewrite parseDigits_toDigits; [reflexivity|].
  rewrite Nat2N.inj_succ, N2Nat.id.
  destruct n as [|p]; [reflexivity|].
  apply N.log2_spec. reflexivity.
Qed.

Lemma toString_small (n : N) :
  (n < 10)%N -> toString n = String (digitChar n) "".
Proof.
  intros H. unfold toString. cbn [toDigits].
  rewrite (proj2 (N.ltb_lt n 10) H), N.mod_small by exact H. reflexivity.
Qed.

Lemma toString_large (n : N) :
  (10 <= n)%N -> 2 <= String.length (toString n).
Proof.
  intros H. unfold toString.
  assert (Hlog : (3 <= N.log2 n)%N).
  { change 3%N with (N.log2 8). apply N.log2_le_mono. lia. }
  destruct (N.to_nat (N.log2 n)) as [|f] eqn:Ef; [lia|].
  cbn [toDigits]. rewrite (proj2 (N.ltb_ge n 10) H).
  apply (toDigits_succ_length f (n / 10) (String _ "")).
Qed.

(** [padStart(2, '0')] on the text of a number is the two-digit form. *)
Lemma padStart_twoDigits (n : N) :
  JSString.padStart (toString n) 2 "0" = Spec.twoDigits n.
Proof.
  unfold JSString.padStart, Spec.twoDigits.
  destruct (n <? 10)%N eqn:E.
  - apply N.ltb_lt in E. rewrite toString_small by exact E. reflexivity.
  - apply N.ltb_ge in E. pose proof (toString_large n E) as Hlen.
    rewrite (proj2 (Nat.leb_le _ _) Hlen). reflexivity.
Qed.

Lemma twoDigits_length (n : N) :
  (n < 100)%N -> String.length (Spec.twoDigits n) = 2.
Proof.
  intros H. unfold Spec.twoDigits.
  destruct (n <? 10)%N eqn:E.
  - apply N.ltb_lt in E. rewrite toString_small by exact E. reflexivity.
  - apply N.ltb_ge in E. unfold toString.
    assert (Hq : (n / 10 < 10)%N)
      by (apply N.Div0.div_lt_upper_bound; lia).
    assert (Hlog : (3 <= N.log2 n)%N).
    { change 3%N with (N.log2 8). apply N.log2_le_mono. lia. }
    destruct (N.to_nat (N.log2 n)) as [|f] eqn:Ef; [lia|].
    cbn [toDigits]. rewrite (proj2 (N.ltb_ge n 10) E).
    rewrite (proj2 (N.ltb_lt _ 10) Hq). reflexivity.
Qed.

Lemma renderDuration_clock (hours minutes seconds : N) :
  renderDuration hours minutes seconds = Spec.clock hours minutes seconds.
Proof.
  unfold renderDuration, Spec.clock. rewrite !padStart_twoDigits.
  destruct hours; reflexivity.
Qed.

End NumberFacts.

(** ** The duration pattern *)

Section PatternFacts.

Import JSRegExp.
Local Open Scope string_scope.

Lemma substring_prefix (ds rest : string) :
  substring 0 (String.length ds) (ds ++ rest) = ds.
Proof.
  induction ds as [|c ds IH].
  - destruct rest; reflexivity.
  - cbn [String.length append substring]. now rewrite IH.
Qed.

Lemma consumed_app (ds rest : string) : consumed (ds ++ rest) rest = ds.
Proof.
  unfold consumed. rewrite length_append.
  replace (String.length ds + String.length rest - String.length rest)
    with (String.length ds) by lia.
  apply substring_prefix.
Qed.

Lemma digitsThen_none {R} (s : string) (k : string -> option R) :
  digitAhead s = false -> digitsThen s k = None.
Proof.
  destruct s as [|c r]; cbn [digitAhead digitsThen]; [reflexivity|].
  now intros ->.
Qed.

(** On a run of digits that ends before [rest], a continuation that
    rejects every position in front of a digit is tried at [rest] only. *)
Lemma digitsThen_run {R} (ds rest : string) (k : string -> option R) :
  allDigits ds = true -> ds <> "" -> digitAhead rest = false ->
  (forall t, digitAhead t = true -> k t = None) ->
  digitsThen (ds ++ rest) k = k rest.
Proof.
  intros Hds Hne Hrest Hk. induction ds as [|c ds IH]; [congruence|].
  cbn [allDigits] in Hds. apply andb_true_iff in Hds. destruct Hds as [Hc Hds].
  cbn [append digitsThen]. rewrite Hc.
  destruct ds as [|d ds].
  - cbn [append]. now rewrite digitsThen_none.
  - rewrite IH by (trivial; discriminate).
    destruct (k rest) eqn:E; [reflexivity|].
    apply Hk. cbn [append digitAhead].
    cbn [allDigits] in Hds. now apply andb_true_iff in Hds.
Qed.

Lemma component_eq (i : nat) (unit : ascii) (s : string) (caps : captures)
      (k : string -> captures -> option captures) :
  matchAt (componentRe i unit) s caps k
  = match digitsThen s (fun s' =>
            matchAt (Lit unit) s' (setCapture i (consumed s s') caps) k) with
    | Some res => Some res
    | None => k s caps
    end.
Proof. reflexivity. Qed.

Lemma lit_digitAhead (unit : ascii) (t : string) (caps : captures)
      (k : string -> captures -> option captures) :
  JSNumber.isDigit unit = false -> digitAhead t = true ->
  matchAt (Lit unit) t caps k = None.
Proof.
  intros Hu Ht. destruct t as [|c t]; [reflexivity|].
  cbn [matchAt digitAhead] in *.
  destruct (Ascii.eqb_spec unit c) as [->|]; [congruence | reflexivity].
Qed.

Lemma lit_other (unit : ascii) (t : string) (caps : captures)
      (k : string -> captures -> option captures) :
  JSString.startsWith t (String unit "") = false ->
  matchAt (Lit unit) t caps k = None.
Proof.
  destruct t as [|c t]; [reflexivity|].
  cbn [matchAt JSString.startsWith]. rewrite andb_true_r. now intros ->.
Qed.

(** A component whose unit does not follow is skipped. *)
Lemma component_skip (i : nat) (unit : ascii) (tail : string)
      (caps : captures) (k : string -> captures -> option captures) :
  JSNumber.isDigit unit = false -> unitFree unit tail ->
  matchAt (componentRe i unit) tail caps k = k tail caps.
Proof.
  intros Hu [ds [rest [-> [Hds [Hrest Hunit]]]]].
  rewrite component_eq.
  destruct ds as [|c ds].
  - cbn [append]. now rewrite digitsThen_none.
  - rewrite digitsThen_run; trivial; try discriminate.
    + now rewrite lit_other.
    + intros t Ht. now apply lit_digitAhead.
Qed.

(** A component that is present is taken, and its digits captured. *)
Lemma component_take (i : nat) (unit : ascii) (n : N) (tail : string)
      (caps : captures) (k : string -> captures -> option captures) :
  JSNumber.isDigit unit = false ->
  k tail (setCapture i (JSNumber.toString n) caps) <> None ->
  matchAt (componentRe i unit) (JSNumber.toString n ++ String unit tail)
          caps k
  = k tail (setCapture i (JSNumber.toString n) caps).
Proof.
  intros Hu Hk. rewrite component_eq.
  rewrite digitsThen_run.
  - rewrite consumed_app. cbn [matchAt]. rewrite Ascii.eqb_refl.
    destruct (k tail _); [reflexivity | congruence].
  - apply toString_allDigits.
  - apply toString_nonempty.
  - exact Hu.
  - intros t Ht. now apply lit_digitAhead.
Qed.

Lemma component_part (i : nat) (unit : ascii) (n : option N)
      (tail : string) (caps : captures)
      (k : string -> captures -> option captures) :
  JSNumber.isDigit unit = false -> unitFree unit tail ->
  k tail (withPart i n caps) <> None ->
  matchAt (componentRe i unit) (Spec.part n (String unit "") ++ tail)
          caps k
  = k tail (withPart i n caps).
Proof.
  intros Hu Htail Hk. destruct n as [v|]; cbn [Spec.part withPart] in *.
  - rewrite append_assoc. now apply component_take.
  - now apply component_skip.
Qed.

Lemma unitFree_empty (unit : ascii) : unitFree unit "".
Proof. exists "", "". repeat split. Qed.

Lemma unitFree_part (unit other : ascii) (n : option N) (tail : string) :
  unit <> other -> JSNumber.isDigit other = false ->
  unitFree unit tail ->
  unitFree unit (Spec.part n (String other "") ++ tail).
Proof.
  intros Hne Hother Htail. destruct n as [v|]; [|exact Htail].
  exists (JSNumber.toString v), (String other tail).
  cbn [Spec.part]. rewrite append_assoc.
  repeat split; trivial.
  - apply toString_allDigits.
  - cbn [JSString.startsWith]. rewrite andb_true_r.
    now apply Ascii.eqb_neq.
Qed.

(** After [PT] the three components follow. *)
Lemma pattern_PT (rest : string) (caps : captures)
      (k : string -> captures -> option captures) :
  matchAt durationPattern (String "P" (String "T" rest)) caps k
  = matchAt (componentRe 1 "H") rest caps
      (fun s1 c1 =>
         matchAt (componentRe 2 "M") s1 c1
           (fun s2 c2 => matchAt (componentRe 3 "S") s2 c2 k)).
Proof. reflexivity. Qed.

Lemma pattern_needs_PT (s : string) (caps : captures)
      (k : string -> captures -> option captures) :
  JSString.startsWith s "PT" = false ->
  matchAt durationPattern s caps k = None.
Proof.
  unfold durationPattern. cbv zeta. cbn [matchAt].
  destruct s as [|a s]; [reflexivity|].
  cbn [JSString.startsWith].
  destruct (Ascii.eqb "P" a); [|reflexivity].
  destruct s as [|b s]; [reflexivity|].
  cbn [JSString.startsWith andb].
  destruct (Ascii.eqb "T" b); [discriminate | reflexivity].
Qed.

Lemma opt_succeeds (r : regex) (s : string) (caps : captures)
      (k : string -> captures -> option captures) :
  (forall s' caps', k s' caps' <> None) ->
  matchAt (Opt r) s caps k <> None.
Proof.
  intros Hk. cbn [matchAt].
  destruct (matchAt r s caps k); [discriminate | apply Hk].
Qed.

Lemma pattern_at_PT (rest : string) :
  matchAt durationPattern (String "P" (String "T" rest)) noCaptures
          (fun _ caps => Some caps) <> None.
Proof.
  rewrite pattern_PT. apply opt_succeeds. intros s1 c1.
  apply opt_succeeds. intros s2 c2.
  apply opt_succeeds. discriminate.
Qed.

Lemma exec_here (r : regex) (s : string) (caps : captures) :
  matchAt r s noCaptures (fun _ c => Some c) = Some caps ->
  exec r s = Some caps.
Proof. intros H. destruct s; cbn [exec]; now rewrite H. Qed.

(** The pattern matches exactly the texts that contain [PT]. *)
Lemma exec_contains_PT (d : string) :
  JSString.includes d "PT" = true -> exec durationPattern d <> None.
Proof.
  induction d as [|c d IH]; [discriminate|].
  cbn [JSString.includes]. intros H. cbn [exec].
  destruct (matchAt durationPattern (String c d) noCaptures _) eqn:E;
    [discriminate|].
  apply IH. apply orb_true_iff in H. destruct H as [H|H]; [|exact H].
  exfalso. apply startsWith_iff in H. destruct H as [rest Hrest].
  cbn [append] in Hrest. rewrite Hrest in E.
  exact (pattern_at_PT rest E).
Qed.

Lemma exec_without_PT (d : string) :
  JSString.includes d "PT" = false -> exec durationPattern d = None.
Proof.
  induction d as [|c d IH]; cbn [JSString.includes]; intros H;
    apply orb_false_iff in H; destruct H as [Hhere Hrest]; cbn [exec];
    rewrite pattern_needs_PT by exact Hhere; [reflexivity | now apply IH].
Qed.

End PatternFacts.

(** ** The duration formatter *)

Section FormatterFacts.

Import JSRegExp.
Local Open Scope string_scope.

(** The captures of a well-formed duration. *)
Lemma exec_encode (hours minutes seconds : option N) :
  exec durationPattern (Spec.encode hours minutes seconds)
  = Some (withPart 3 seconds (withPart 2 minutes
                                (withPart 1 hours noCaptures))).
Proof.
  apply exec_here. unfold Spec.encode. cbn [append].
  rewrite pattern_PT.
  assert (E3 : forall caps,
             matchAt (componentRe 3 "S") (Spec.part seconds "S") caps
                     (fun _ c => Some c)
             = Some (withPart 3 seconds caps)).
  { intros caps. rewrite <- (append_empty_r (Spec.part seconds "S")).
    apply (component_part 3 "S" seconds "" caps (fun _ c => Some c));
      [reflexivity | apply unitFree_empty | discriminate]. }
  assert (F3 : unitFree "M" (Spec.part seconds "S")).
  { rewrite <- (append_empty_r (Spec.part seconds "S")).
    apply unitFree_part;
      [discriminate | reflexivity | apply unitFree_empty]. }
  assert (E2 : forall caps,
             matchAt (componentRe 2 "M")
                     (Spec.part minutes "M" ++ Spec.part seconds "S") caps
                     (fun s2 c2 =>
                        matchAt (componentRe 3 "S") s2 c2
                                (fun _ c => Some c))
             = Some (withPart 3 seconds (withPart 2 minutes caps))).
  { intros caps. rewrite component_part.
    - apply E3.
    - reflexivity.
    - exact F3.
    - rewrite E3. discriminate. }
  rewrite component_part.
  - apply E2.
  - reflexivity.
  - apply unitFree_part; [discriminate | reflexivity|].
    rewrite <- (append_empty_r (Spec.part seconds "S")).
    apply unitFree_part;
      [discriminate | reflexivity | apply unitFree_empty].
  - rewrite E2. discriminate.
Qed.

Lemma durationComponent_withPart (i : nat) (n : option N) (caps : captures) :
  durationComponent (withPart i n caps) i
  = match n with
    | Some v => v
    | None => durationComponent caps i
    end.
Proof.
  destruct n as [v|]; [|reflexivity].
  unfold durationComponent, withPart, setCapture.
  rewrite Nat.eqb_refl, parseInt_toString.
  destruct (JSNumber.toString v) eqn:E; [|reflexivity].
  now apply toString_nonempty in E.
Qed.

Lemma durationComponent_other (i j : nat) (n : option N) (caps : captures) :
  i <> j ->
  durationComponent (withPart j n caps) i = durationComponent caps i.
Proof.
  intros Hij. destruct n as [v|]; [|reflexivity].
  unfold durationComponent, withPart, setCapture.
  now rewrite (proj2 (Nat.eqb_neq i j) Hij).
Qed.

Lemma formatDuration_match (d : string) (m : captures) :
  exec durationPattern d = Some m ->
  formatDuration (Some d)
  = Some (Spec.clock (durationComponent m 1) (durationComponent m 2)
                     (durationComponent m 3)).
Proof.
  intros Hm. unfold formatDuration.
  destruct d as [|c d]; [discriminate|].
  cbn [JSString.truthy negb]. rewrite Hm.
  now rewrite renderDuration_clock.
Qed.

Lemma formatDuration_encode (hours minutes seconds : option N) :
  formatDuration (Some (Spec.encode hours minutes seconds))
  = Some (Spec.clock (Spec.orZero hours) (Spec.orZero minutes)
                     (Spec.orZero seconds)).
Proof.
  rewrite (formatDuration_match _ _ (exec_encode hours minutes seconds)).
  rewrite durationComponent_withPart.
  rewrite (durationComponent_other 2 3), durationComponent_withPart
    by discriminate.
  rewrite (durationComponent_other 1 3), (durationComponent_other 1 2),
    durationComponent_withPart by discriminate.
  destruct hours, minutes, seconds; reflexivity.
Qed.

Lemma formatDuration_absent_iff (d : string) :
  formatDuration (Some d) = None <-> JSString.includes d "PT" = false.
Proof.
  split.
  - intros H. destruct (JSString.includes d "PT") eqn:E; [|reflexivity].
    exfalso. pose proof (exec_contains_PT d E) as Hex.
    destruct (exec durationPattern d) as [m|] eqn:Em; [|congruence].
    rewrite (formatDuration_match d m Em) in H. discriminate.
  - intros H. unfold formatDuration.
    destruct (negb (JSString.truthy d)); [reflexivity|].
    now rewrite exec_without_PT.
Qed.

End FormatterFacts.

(** C4. The formatter returns nothing for an absent duration and for a text
    the pattern does not match, that is, a text without [PT].  On a match it
    returns [H:MM:SS] when the captured hours are positive and [M:SS]
    otherwise, minutes and seconds of [H:MM:SS] and seconds of [M:SS] padded
    with a zero to two digits and a component that was not captured counting
    as 0; for the duration text of given components these are the values
    captured.  The values are integers that the numbers of the program hold
    exactly (below 2^53).  The four results of the specification are
    obtained. *)
Theorem formatDuration_clock :
  formatDuration None = None
  /\ (forall d, JSString.includes d "PT" = false ->
                formatDuration (Some d) = None)
  /\ (forall d m,
         JSRegExp.exec durationPattern d = Some m ->
         let hours := durationComponent m 1 in
         let minutes := durationComponent m 2 in
         let seconds := durationComponent m 3 in
         JSNumber.safe hours -> JSNumber.safe minutes ->
         JSNumber.safe seconds ->
         formatDuration (Some d)
         = Some (if (0 <? hours)%N
                 then (JSNumber.toString hours ++ ":"
                       ++ Spec.twoDigits minutes ++ ":"
                       ++ Spec.twoDigits seconds)%string
                 else (JSNumber.toString minutes ++ ":"
                       ++ Spec.twoDigits seconds)%string))
  /\ (forall hours minutes seconds,
         JSNumber.safe (Spec.orZero hours) ->
         JSNumber.safe (Spec.orZero minutes) ->
         JSNumber.safe (Spec.orZero seconds) ->
         formatDuration (Some (Spec.encode hours minutes seconds))
         = Some (Spec.clock (Spec.orZero hours) (Spec.orZero minutes)
                            (Spec.orZero seconds)))
  /\ (forall n, (n < 10)%N ->
                Spec.twoDigits n = ("0" ++ JSNumber.toString n)%string)
  /\ (forall n, (n < 100)%N -> String.length (Spec.twoDigits n) = 2)
  /\ formatDuration (Some "PT4M13S") = Some "4:13"
  /\ formatDuration (Some "PT1H2M3S") = Some "1:02:03"
  /\ formatDuration (Some "garbage") = None.
Proof.
  split; [reflexivity|].
  split; [intros d; apply formatDuration_absent_iff|].
  split.
  { intros d m Hm hours minutes seconds _ _ _.
    rewrite (formatDuration_match d m Hm). unfold Spec.clock.
    fold hours minutes seconds. destruct hours; reflexivity. }
  split; [intros hours minutes seconds _ _ _; apply formatDuration_encode|].
  split.
  { intros n Hn. unfold Spec.twoDigits.
    now rewrite (proj2 (N.ltb_lt n 10) Hn). }
  split; [apply twoDigits_length|].
  repeat split; reflexivity.
Qed.

Lemma formatDuration_clock_witness :
  formatDuration (Some "aPT1H5S") = Some "1:00:05".
Proof.
  exact (proj1 (proj2 (proj2 formatDuration_clock)) "aPT1H5S"
               (JSRegExp.setCapture 3 "5"
                  (JSRegExp.setCapture 1 "1" JSRegExp.noCaptures))
               eq_refl eq_refl eq_refl eq_refl).
Defined.

(** C10. Every text that contains [PT] is formatted to a present result:
    the pattern is not anchored and each of its components is optional.
    Without any digits the result is ["0:00"]. *)
Theorem formatDuration_contains_PT :
  (forall d, JSString.includes d "PT" = true ->
             exists text, formatDuration (Some d) = Some text)
  /\ formatDuration (Some "PT") = Some "0:00"
  /\ formatDuration (Some "xPTy") = Some "0:00".
Proof.
  split; [|split; reflexivity].
  intros d Hd.
  destruct (formatDuration (Some d)) as [text|] eqn:E; [now exists text|].
  apply formatDuration_absent_iff in E. congruence.
Qed.

Lemma formatDuration_contains_PT_witness :
  exists text, formatDuration (Some "1PT2") = Some text.
Proof.
  exact (proj1 formatDuration_contains_PT "1PT2" eq_refl).
Defined.

(** ** Sorting and sets of strings *)

Section SortFacts.

Context {A : Type} (cmp : A -> A -> Z).

Let le (a b : A) : Prop := (cmp a b <= 0)%Z.

Lemma insertBy_perm (x : A) (l : list A) :
  Permutation (JSArray.insertBy cmp x l) (x :: l).
Proof.
  induction l as [|y l IH]; simpl; [reflexivity|].
  destruct (cmp x y <=? 0)%Z; [reflexivity|].
  rewrite IH. apply perm_swap.
Qed.

Lemma sort_perm (l : list A) : Permutation (JSArray.sort cmp l) l.
Proof.
  induction l as [|x l IH]; simpl; [reflexivity|].
  unfold JSArray.sort in IH. now rewrite insertBy_perm, IH.
Qed.

Lemma sort_In (l : list A) (x : A) : In x (JSArray.sort cmp l) <-> In x l.
Proof.
  split; apply Permutation_in;
    [apply sort_perm | symmetry; apply sort_perm].
Qed.

Hypothesis le_total : forall a b, le a b \/ le b a.
Hypothesis le_trans : forall a b c, le a b -> le b c -> le a c.

Lemma insertBy_sorted (x : A) (l : list A) :
  StronglySorted le l -> StronglySorted le (JSArray.insertBy cmp x l).
Proof.
  induction 1 as [|y l Hl IH Hy]; simpl.
  - repeat constructor.
  - destruct (cmp x y <=? 0)%Z eqn:E.
    + apply Z.leb_le in E. constructor; [now constructor|].
      constructor; [exact E|].
      eapply Forall_impl; [|exact Hy]. intros z. now apply le_trans.
    + apply Z.leb_gt in E. constructor; [exact IH|].
      assert (Hyx : le y x).
      { destruct (le_total x y) as [H|H]; [unfold le in H; lia | exact H]. }
      rewrite Forall_forall in *. intros z Hz.
      apply (Permutation_in _ (insertBy_perm x l)) in Hz.
      destruct Hz as [<-|Hz]; [exact Hyx | now apply Hy].
Qed.

Lemma sort_sorted (l : list A) : StronglySorted le (JSArray.sort cmp l).
Proof.
  induction l as [|x l IH]; simpl; [constructor|].
  now apply insertBy_sorted.
Qed.

End SortFacts.

Section SetFacts.

Lemma existsb_eqb_In (acc : list string) (y : string) :
  existsb (String.eqb y) acc = true <-> In y acc.
Proof.
  rewrite existsb_exists. split.
  - intros [z [Hz E]]. apply String.eqb_eq in E. now subst.
  - intros H. exists y. split; [exact H | apply String.eqb_refl].
Qed.

Lemma notIn_spec (acc : list string) (y : string) :
  notIn acc y = true <-> ~ In y acc.
Proof.
  unfold notIn. rewrite negb_true_iff, <- existsb_eqb_In.
  destruct (existsb _ acc); split; congruence.
Qed.

Lemma fold_Set_add (l acc : list string) :
  fold_left JSArray.Set_add l acc
  = acc ++ filter (notIn acc) (firstOccurrences l).
Proof.
  revert acc. induction l as [|x l IH]; intros acc; simpl.
  - now rewrite app_nil_r.
  - rewrite IH. unfold JSArray.Set_add.
    destruct (existsb (String.eqb x) acc) eqn:E.
    + unfold notIn at 2. rewrite E. simpl. f_equal.
      rewrite filter_filter.
      apply filter_ext_in. intros y _.
      destruct (String.eqb_spec y x) as [->|]; simpl; [|reflexivity].
      unfold notIn. now rewrite E.
    + unfold notIn at 2. rewrite E. simpl.
      rewrite <- app_assoc. simpl. do 2 f_equal.
      rewrite filter_filter.
      apply filter_ext. intros y. unfold notIn.
      rewrite existsb_app. simpl. rewrite orb_false_r, negb_orb.
      apply andb_comm.
Qed.

Lemma newSet_firstOccurrences (l : list string) :
  JSArray.newSet l = firstOccurrences l.
Proof.
  unfold JSArray.newSet. rewrite fold_Set_add. simpl.
  apply filter_true.
Qed.

Lemma firstOccurrences_In (l : list string) (x : string) :
  In x (firstOccurrences l) <-> In x l.
Proof.
  induction l as [|y l IH]; simpl; [reflexivity|].
  rewrite filter_In, IH, negb_true_iff, String.eqb_neq.
  destruct (String.eqb_spec x y) as [->|]; intuition congruence.
Qed.

Lemma firstOccurrences_NoDup (l : list string) :
  NoDup (firstOccurrences l).
Proof.
  induction l as [|y l IH]; simpl; constructor.
  - rewrite filter_In, negb_true_iff, String.eqb_neq. intuition.
  - now apply NoDup_filter.
Qed.

Lemma newSet_In (l : list string) (x : string) :
  In x (JSArray.newSet l) <-> In x l.
Proof. rewrite newSet_firstOccurrences. apply firstOccurrences_In. Qed.

Lemma newSet_NoDup (l : list string) : NoDup (JSArray.newSet l).
Proof. rewrite newSet_firstOccurrences. apply firstOccurrences_NoDup. Qed.

(** A set built from [a ++ b] lists the set of [a], then what [b] adds. *)
Lemma newSet_app (a b : list string) :
  JSArray.newSet (a ++ b)
  = JSArray.newSet a ++ filter (notIn a) (JSArray.newSet b).
Proof.
  unfold JSArray.newSet at 1. rewrite fold_left_app.
  fold (JSArray.newSet a). rewrite fold_Set_add.
  rewrite <- newSet_firstOccurrences. f_equal.
  apply filter_ext. intros y.
  apply eq_true_iff_eq. rewrite !notIn_spec, newSet_In. reflexivity.
Qed.

Lemma filterBoolean_In (l : list string) (x : string) :
  In x (JSArray.filterBoolean l) <-> In x l /\ x <> "".
Proof.
  unfold JSArray.filterBoolean. rewrite filter_In.
  destruct x; simpl; intuition congruence.
Qed.

End SetFacts.

(** ** The category reconciler *)

Section ReconcilerFacts.

Variable localeCompare : string -> string -> Z.

Local Abbreviation order := Spec.preferredOrder.
Local Abbreviation index := (JSArray.indexOf Spec.preferredOrder).
Local Abbreviation cmp := (preferredCompare localeCompare).

Lemma indexOf_lower (l : list string) (x : string) :
  (-1 <= JSArray.indexOf l x)%Z.
Proof.
  induction l as [|y l IH]; simpl; [lia|].
  destruct (String.eqb y x); [lia|].
  destruct (JSArray.indexOf l x <? 0)%Z eqn:E; lia.
Qed.

Lemma indexOf_absent (l : list string) (x : string) :
  JSArray.indexOf l x = (-1)%Z <-> ~ In x l.
Proof.
  induction l as [|y l IH]; simpl; [tauto|].
  pose proof (indexOf_lower l x) as Hlow.
  destruct (String.eqb_spec y x) as [->|Hne].
  - split; [discriminate | tauto].
  - destruct (JSArray.indexOf l x <? 0)%Z eqn:E.
    + apply Z.ltb_lt in E. assert (H : JSArray.indexOf l x = (-1)%Z) by lia.
      apply IH in H. tauto.
    + apply Z.ltb_ge in E. split; [lia|].
      intros H. exfalso. apply H. right.
      destruct (in_dec string_dec x l) as [Hin|Hout]; [exact Hin|].
      apply IH in Hout. lia.
Qed.

Lemma indexOf_nth (l : list string) (x : string) :
  JSArray.indexOf l x <> (-1)%Z ->
  nth_error l (Z.to_nat (JSArray.indexOf l x)) = Some x.
Proof.
  induction l as [|y l IH]; simpl; [congruence|].
  pose proof (indexOf_lower l x) as Hlow.
  destruct (String.eqb_spec y x) as [->|Hne]; [reflexivity|].
  destruct (JSArray.indexOf l x <? 0)%Z eqn:E; [congruence|].
  apply Z.ltb_ge in E. intros _.
  replace (Z.to_nat (JSArray.indexOf l x + 1))
    with (S (Z.to_nat (JSArray.indexOf l x))) by lia.
  simpl. apply IH. lia.
Qed.

(** The comparator, read as an order. *)
Lemma preferredCompare_le (a b : string) :
  (cmp a b <= 0)%Z
  <-> (index a <> (-1)%Z /\ index b <> (-1)%Z /\ (index a <= index b)%Z)
      \/ (index a <> (-1)%Z /\ index b = (-1)%Z)
      \/ (index a = (-1)%Z /\ index b = (-1)%Z
          /\ (localeCompare a b <= 0)%Z).
Proof.
  unfold preferredCompare. cbv zeta.
  change ["All"; "Music"; "Interviews"; "Podcasts"; "Freestyle";
          "Off The Porch"] with order.
  destruct (index a =? -1)%Z eqn:Ea; destruct (index b =? -1)%Z eqn:Eb;
    cbn [negb andb];
    rewrite ?Z.eqb_eq, ?Z.eqb_neq in *; lia.
Qed.

Lemma preferredCompare_precedes (a b : string) :
  (cmp a b <= 0)%Z -> Spec.precedes localeCompare a b.
Proof.
  rewrite preferredCompare_le. unfold Spec.precedes.
  pose proof (indexOf_lower order a) as Ha.
  pose proof (indexOf_lower order b) as Hb.
  intros [[Hia [Hib Hle]] | [[Hia Hib] | [Hia [Hib Hlc]]]].
  - left. exists (Z.to_nat (index a)), (Z.to_nat (index b)).
    repeat split; [now apply indexOf_nth | now apply indexOf_nth | lia].
  - right; left. split.
    + destruct (in_dec string_dec a order) as [H|H]; [exact H|].
      now apply indexOf_absent in H.
    + now apply indexOf_absent.
  - right; right. repeat split; trivial; now apply indexOf_absent.
Qed.

Lemma index_zero (a : string) : index a = 0%Z -> a = "All".
Proof.
  intros H. pose proof (indexOf_nth order a) as Hn.
  rewrite H in Hn. simpl in Hn.
  assert (Some "All" = Some a) by (apply Hn; discriminate).
  congruence.
Qed.

Hypothesis localeCompare_total :
  forall a b, (localeCompare a b <= 0)%Z \/ (localeCompare b a <= 0)%Z.
Hypothesis localeCompare_trans :
  forall a b c, (localeCompare a b <= 0)%Z -> (localeCompare b c <= 0)%Z ->
                (localeCompare a c <= 0)%Z.

Lemma preferredCompare_total (a b : string) :
  (cmp a b <= 0)%Z \/ (cmp b a <= 0)%Z.
Proof.
  rewrite !preferredCompare_le.
  destruct (localeCompare_total a b); lia.
Qed.

Lemma preferredCompare_trans (a b c : string) :
  (cmp a b <= 0)%Z -> (cmp b c <= 0)%Z -> (cmp a c <= 0)%Z.
Proof.
  rewrite !preferredCompare_le.
  intros Hab Hbc.
  assert (Hlc : (localeCompare a b <= 0)%Z -> (localeCompare b c <= 0)%Z ->
                (localeCompare a c <= 0)%Z) by apply localeCompare_trans.
  lia.
Qed.

(** A sorted category list that contains ["All"] begins with it, and is in
    the preferred order. *)
Lemma sorted_categories (l : list string) :
  let sorted := JSArray.sort cmp ("All" :: l) in
  (exists rest, sorted = "All" :: rest)
  /\ StronglySorted (Spec.precedes localeCompare) sorted.
Proof.
  intros sorted.
  assert (Hs : StronglySorted (fun a b => (cmp a b <= 0)%Z) sorted).
  { apply sort_sorted;
      [apply preferredCompare_total | apply preferredCompare_trans]. }
  assert (Hall : In "All" sorted) by (apply sort_In; now left).
  split.
  - destruct sorted as [|h rest]; [destruct Hall|].
    exists rest. f_equal.
    destruct Hall as [H|H]; [exact H|].
    apply StronglySorted_inv in Hs. destruct Hs as [_ Hh].
    rewrite Forall_forall in Hh. specialize (Hh _ H).
    apply preferredCompare_le in Hh.
    pose proof (indexOf_lower order h) as Hlow.
    change (index "All") with 0%Z in Hh.
    apply index_zero. lia.
  - clear Hall. induction Hs as [|x r Hr IH Hx]; constructor; [exact IH|].
    eapply Forall_impl; [|exact Hx].
    intros y. apply preferredCompare_precedes.
Qed.

End ReconcilerFacts.

Section ReconcilerResults.

Variable localeCompare : string -> string -> Z.

Lemma allUniqueCategories_In (videoList : list Video) (x : string) :
  In x (allUniqueCategories videoList) ->
  exists video, In video videoList
                /\ (category video = x \/ In x (Spec.tagsOf video)).
Proof.
  unfold allUniqueCategories, categoryFromField, categoriesFromTags.
  rewrite filterBoolean_In, newSet_In, in_app_iff,
    !filterBoolean_In, !newSet_In, in_map_iff, in_flat_map.
  intros [[[[video [Hc Hin]] _] | [[video [Hin Ht]] _]] _];
    exists video; auto.
Qed.

Lemma single_or_none (l : list string) (a : string) :
  NoDup l -> (forall x, In x l -> x = a) -> l = [] \/ l = [a].
Proof.
  intros Hnd Hall. destruct l as [|x l]; [now left|]. right.
  assert (x = a) by (apply Hall; now left). subst x.
  destruct l as [|y l]; [reflexivity|].
  assert (y = a) by (apply Hall; right; now left). subst y.
  inversion Hnd as [|? ? Hnotin _]. exfalso. apply Hnotin. now left.
Qed.

(** What the page shows once records with observed categories [all] have
    been loaded. *)
Lemma reconcile_observed (videoList : list Video) :
  allUniqueCategories videoList <> [] ->
  reconcile localeCompare videoList
  = JSArray.sort (preferredCompare localeCompare)
      ("All" :: JSArray.slice1 staticCategories
                ++ filter (notIn (JSArray.slice1 staticCategories))
                     (JSArray.newSet
                        (JSArray.sort JSString.defaultCompare
                           (allUniqueCategories videoList)))).
Proof.
  intros Hne. unfold reconcile, loadVideos, categories.
  destruct (allUniqueCategories videoList) as [|c all] eqn:E;
    [congruence|].
  cbn [List.length Nat.ltb Nat.leb JSArray.slice1 tl].
  rewrite newSet_app. reflexivity.
Qed.

(** A load that observes no category leaves the state as it was: the
    setter is not called. *)
Lemma loadVideos_nothing_observed (dynamicCategories : list string)
      (videoList : list Video) :
  allUniqueCategories videoList = [] ->
  loadVideos dynamicCategories videoList = dynamicCategories.
Proof. intros E. unfold loadVideos. now rewrite E. Qed.

Lemma reconcile_nothing_observed (videoList : list Video) :
  allUniqueCategories videoList = [] ->
  reconcile localeCompare videoList = staticCategories.
Proof.
  intros E. unfold reconcile, loadVideos. rewrite E. reflexivity.
Qed.

Lemma allUniqueCategories_category (videoList : list Video) (video : Video) :
  In video videoList -> category video <> "" ->
  In (category video) (allUniqueCategories videoList).
Proof.
  intros Hin Hne.
  unfold allUniqueCategories, categoryFromField.
  rewrite filterBoolean_In, newSet_In, in_app_iff, filterBoolean_In,
    newSet_In, in_map_iff.
  split; [|exact Hne]. left. split; [|exact Hne]. now exists video.
Qed.

(** When only categories of the baseline were observed, the list of the
    first load is the baseline, with ["All"] once more in front when it is
    among them. *)
Lemma reconcile_within_baseline (videoList : list Video) :
  (forall x, In x (allUniqueCategories videoList) ->
             In x staticCategories) ->
  reconcile localeCompare videoList
  = if JSArray.includes (allUniqueCategories videoList) "All"
    then "All" :: staticCategories
    else staticCategories.
Proof.
  intros Hbase.
  destruct (allUniqueCategories videoList) as [|c all] eqn:E.
  - now apply reconcile_nothing_observed.
  - rewrite reconcile_observed by (rewrite E; discriminate).
    rewrite E.
    assert (Hfilter : forall x,
               In x (filter (notIn (JSArray.slice1 staticCategories))
                       (JSArray.newSet
                          (JSArray.sort JSString.defaultCompare (c :: all))))
               <-> x = "All" /\ In "All" (c :: all)).
    { intros x. rewrite filter_In, newSet_In, sort_In, notIn_spec. split.
      - intros [Hx Hout].
        destruct (Hbase x Hx) as [<-|Hmem]; [tauto | contradiction].
      - intros [-> Hin]. split; [exact Hin|].
        simpl. intuition discriminate. }
    destruct (single_or_none
                (filter (notIn (JSArray.slice1 staticCategories))
                   (JSArray.newSet
                      (JSArray.sort JSString.defaultCompare (c :: all))))
                "All") as [Hf | Hf].
    + apply NoDup_filter, newSet_NoDup.
    + intros x Hx. now apply Hfilter in Hx.
    + rewrite Hf.
      destruct (JSArray.includes (c :: all) "All") eqn:Einc; [|reflexivity].
      apply JSArray_includes_In in Einc.
      assert (Hin : In "All" []) by (rewrite <- Hf; now apply Hfilter).
      destruct Hin.
    + rewrite Hf.
      destruct (JSArray.includes (c :: all) "All") eqn:Einc; [reflexivity|].
      assert (Hin : In "All" (c :: all))
        by (apply (Hfilter "All"); rewrite Hf; now left).
      apply JSArray_includes_In in Hin. congruence.
Qed.

(** Whenever some record carries ["All"] as its category or as a tag, the
    list shown contains ["All"] twice. *)
Lemma reconcile_All_twice (videoList : list Video) :
  In "All" (allUniqueCategories videoList) ->
  ~ NoDup (reconcile localeCompare videoList).
Proof.
  intros Hin Hnd.
  rewrite reconcile_observed in Hnd by (intros E; now rewrite E in Hin).
  apply (Permutation_NoDup (sort_perm _ _)) in Hnd.
  apply NoDup_cons_iff in Hnd. destruct Hnd as [Hnotin _]. apply Hnotin.
  apply in_or_app. right. apply filter_In. split.
  - apply newSet_In. now apply sort_In.
  - reflexivity.
Qed.

End ReconcilerResults.

Section DefaultCompareFacts.

Lemma defaultCompare_le (a b : string) :
  (JSString.defaultCompare a b <= 0)%Z <-> String.compare a b <> Gt.
Proof.
  unfold JSString.defaultCompare.
  destruct (String.compare a b); split; (lia || congruence).
Qed.

Lemma defaultCompare_total (a b : string) :
  (JSString.defaultCompare a b <= 0)%Z
  \/ (JSString.defaultCompare b a <= 0)%Z.
Proof.
  rewrite !defaultCompare_le, (String.compare_antisym a b).
  destruct (String.compare b a); simpl; [left | right | left]; congruence.
Qed.

Lemma defaultCompare_trans (a b c : string) :
  (JSString.defaultCompare a b <= 0)%Z ->
  (JSString.defaultCompare b c <= 0)%Z ->
  (JSString.defaultCompare a c <= 0)%Z.
Proof.
  rewrite !defaultCompare_le. intros Hab Hbc.
  destruct (String.compare a b) eqn:Eab; [| |congruence].
  - apply String.compare_eq_iff in Eab. now subst.
  - destruct (String.compare b c) eqn:Ebc; [| |congruence].
    + apply String.compare_eq_iff in Ebc. subst. congruence.
    + apply String_as_OT.cmp_lt in Eab, Ebc.
      pose proof (String_as_OT.lt_trans _ _ _ Eab Ebc) as Hac.
      apply String_as_OT.cmp_lt in Hac.
      unfold String_as_OT.cmp in Hac. congruence.
Qed.

End DefaultCompareFacts.

(** C1. On a record that carries ["All"], the list of categories shown has
    ["All"] twice: the sentinel put in front and the observed value. *)
Theorem reconcile_duplicate_All :
  forall localeCompare,
    reconcile localeCompare [seededVideo]
    = ["All"; "All"; "Music"; "Interviews"; "Podcasts"; "Freestyle";
       "Off The Porch"].
Proof. intros localeCompare. reflexivity. Qed.

(** C6, as stated, fails: on a page that has loaded a record with the tags
    [Zed] and [apple] before, the reconciler applied to the empty record
    sequence keeps the list of that load, which is not the baseline. *)
Lemma loadVideos_stale_counterexample :
  categories JSString.defaultCompare
             (loadVideos (loadVideos [] [exampleC]) [])
  = ["All"; "Music"; "Interviews"; "Podcasts"; "Freestyle"; "Off The Porch";
     "Zed"; "apple"]
  /\ categories JSString.defaultCompare
                (loadVideos (loadVideos [] [exampleC]) [])
     <> staticCategories.
Proof. split; [reflexivity | discriminate]. Qed.

(** C6, amended.  The reconciler applied to the empty record sequence leaves
    the list as it was before the load, which on a freshly mounted page is
    the baseline list.  Applied to a non-empty record sequence whose
    categories and tags are all members of the baseline other than ["All"],
    it gives the baseline list in baseline order, whatever the list was
    before. *)
Theorem loadVideos_baseline :
  forall localeCompare,
    (forall dynamicCategories,
        categories localeCompare (loadVideos dynamicCategories [])
        = categories localeCompare dynamicCategories)
    /\ categories localeCompare (loadVideos [] []) = staticCategories
    /\ forall dynamicCategories videoList,
        videoList <> [] ->
        (forall video,
            In video videoList ->
            (In (category video) staticCategories
             /\ category video <> "All")
            /\ forall tag, In tag (Spec.tagsOf video) ->
                           In tag staticCategories /\ tag <> "All") ->
        categories localeCompare (loadVideos dynamicCategories videoList)
        = staticCategories.
Proof.
  intros localeCompare.
  split; [reflexivity | split; [reflexivity|]].
  intros dyn videoList Hne Hbase.
  assert (Hall : forall x, In x (allUniqueCategories videoList) ->
                           In x staticCategories /\ x <> "All").
  { intros x Hx. apply allUniqueCategories_In in Hx.
    destruct Hx as [video [Hin Hx]].
    destruct (Hbase video Hin) as [Hcat Htags].
    destruct Hx as [<-|Hx]; [exact Hcat | now apply Htags]. }
  assert (Hobs : allUniqueCategories videoList <> []).
  { destruct videoList as [|video rest]; [congruence|].
    destruct (Hbase video (or_introl eq_refl)) as [[Hcat _] _].
    intros Hnil.
    assert (Hin : In (category video)
                     (allUniqueCategories (video :: rest))).
    { apply allUniqueCategories_category; [now left|].
      intros Hempty. rewrite Hempty in Hcat. simpl in Hcat.
      intuition discriminate. }
    rewrite Hnil in Hin. destruct Hin. }
  replace (loadVideos dyn videoList) with (loadVideos [] videoList).
  2:{ unfold loadVideos.
      destruct (allUniqueCategories videoList); [congruence | reflexivity]. }
  fold (reconcile localeCompare videoList).
  rewrite reconcile_within_baseline by (intros x Hx; now apply Hall).
  destruct (JSArray.includes (allUniqueCategories videoList) "All") eqn:E;
    [|reflexivity].
  apply JSArray_includes_In in E. apply Hall in E. tauto.
Qed.

Lemma loadVideos_baseline_witness :
  categories JSString.defaultCompare
             (loadVideos (loadVideos [] [exampleC]) [exampleA])
  = staticCategories.
Proof.
  refine (proj2 (proj2 (loadVideos_baseline JSString.defaultCompare))
                (loadVideos [] [exampleC]) [exampleA] _ _).
  - discriminate.
  - intros video [<-|[]]. simpl.
    split; [split; [tauto | discriminate]|].
    intros tag [<-|[]]. split; [tauto | discriminate].
Defined.

(** C7. When some category was observed, the list of categories begins with
    ["All"] and is in the preferred order: entries of the preferred list come
    before the others and follow the positions they have in that list, and
    the others follow the collation [localeCompare]. *)
Theorem categories_preferred_order :
  forall localeCompare,
    (forall a b, (localeCompare a b <= 0)%Z \/ (localeCompare b a <= 0)%Z) ->
    (forall a b c, (localeCompare a b <= 0)%Z -> (localeCompare b c <= 0)%Z ->
                   (localeCompare a c <= 0)%Z) ->
    (forall dynamicCategories,
        dynamicCategories <> [] ->
        (exists rest, categories localeCompare dynamicCategories
                      = "All" :: rest)
        /\ StronglySorted (Spec.precedes localeCompare)
                          (categories localeCompare dynamicCategories))
    /\ (forall videoList,
           allUniqueCategories videoList <> [] ->
           (exists rest, reconcile localeCompare videoList = "All" :: rest)
           /\ StronglySorted (Spec.precedes localeCompare)
                             (reconcile localeCompare videoList)).
Proof.
  intros localeCompare Htotal Htrans.
  assert (Hdyn : forall dynamicCategories,
             dynamicCategories <> [] ->
             (exists rest, categories localeCompare dynamicCategories
                           = "All" :: rest)
             /\ StronglySorted (Spec.precedes localeCompare)
                               (categories localeCompare dynamicCategories)).
  { intros dyn Hne. unfold categories.
    destruct dyn as [|c dyn]; [congruence|].
    cbn [List.length Nat.ltb Nat.leb].
    apply sorted_categories; assumption. }
  split; [exact Hdyn|].
  intros videoList Hne. unfold reconcile. apply Hdyn.
  unfold loadVideos.
  destruct (allUniqueCategories videoList); [congruence | discriminate].
Qed.

Lemma categories_preferred_order_witness :
  StronglySorted (Spec.precedes JSString.defaultCompare)
                 (reconcile JSString.defaultCompare [exampleC]).
Proof.
  refine (proj2 (proj2 (categories_preferred_order JSString.defaultCompare
                          defaultCompare_total defaultCompare_trans)
                       [exampleC] _)).
  vm_compute. discriminate.
Defined.

(** ** Absence of faults *)

Section FaultFacts.

Lemma filterRes_ok {A} (f : A -> Faulting.Res bool) (g : A -> bool)
      (l : list A) :
  (forall x, f x = Faulting.Ok (g x)) ->
  Faulting.filterRes f l = Faulting.Ok (filter g l).
Proof.
  intros Hf. induction l as [|x l IH]; simpl; [reflexivity|].
  rewrite Hf, IH. simpl. reflexivity.
Qed.

Lemma categoryStage_ok (selectedCategory : string) (video : Video) :
  Faulting.categoryStage selectedCategory video
  = Faulting.Ok (categoryStage selectedCategory video).
Proof.
  unfold Faulting.categoryStage, categoryStage.
  destruct (tags video); reflexivity.
Qed.

Lemma textStage_ok (searchTerm : string) (video : Video) :
  Faulting.textStage searchTerm video
  = Faulting.Ok (textStage searchTerm video).
Proof.
  unfold Faulting.textStage, textStage. cbv zeta.
  destruct (JSString.includes (JSString.toLowerCase (title video)) _);
    [reflexivity|].
  destruct (JSString.includes (JSString.toLowerCase (description video)) _);
    [reflexivity|].
  destruct (tags video); reflexivity.
Qed.

Lemma filterVideos_ok (videos : list Video)
      (selectedCategory searchTerm : string) :
  Faulting.filterVideos videos selectedCategory searchTerm
  = Faulting.Ok (filterVideos videos selectedCategory searchTerm).
Proof.
  unfold Faulting.filterVideos, filterVideos.
  destruct (negb (String.eqb selectedCategory "All"));
    [rewrite (filterRes_ok _ _ _ (categoryStage_ok selectedCategory))|];
    cbn [Faulting.bind];
    (destruct (JSString.truthy (JSString.trim searchTerm));
     [apply filterRes_ok, textStage_ok | reflexivity]).
Qed.

Lemma formatDuration_ok (duration : option string) :
  Faulting.formatDuration duration = Faulting.Ok (formatDuration duration).
Proof.
  unfold Faulting.formatDuration, formatDuration.
  destruct duration as [d|]; [|reflexivity].
  destruct (JSString.truthy d); [|reflexivity].
  cbn [negb Faulting.member Faulting.bind].
  destruct (JSRegExp.exec durationPattern d); reflexivity.
Qed.

Lemma keeps_withTags (selectedCategory searchTerm : string)
      (video : Video) :
  keeps selectedCategory searchTerm (Spec.withTags video)
  = keeps selectedCategory searchTerm video.
Proof.
  unfold keeps, categoryStage, textStage, Spec.withTags, Spec.tagsOf.
  cbn [tags category title description].
  destruct (tags video); reflexivity.
Qed.

Lemma filter_map_commute {A B} (f : B -> bool) (g : A -> B) (l : list A) :
  filter f (map g l) = map g (filter (fun x => f (g x)) l).
Proof.
  induction l as [|x l IH]; simpl; [reflexivity|].
  destruct (f (g x)); simpl; now rewrite IH.
Qed.

Lemma filterVideos_withTags (videos : list Video)
      (selectedCategory searchTerm : string) :
  filterVideos (map Spec.withTags videos) selectedCategory searchTerm
  = map Spec.withTags (filterVideos videos selectedCategory searchTerm).
Proof.
  rewrite !filterVideos_keeps, filter_map_commute. f_equal.
  apply filter_ext. intros video. apply keeps_withTags.
Qed.

Lemma allUniqueCategories_withTags (videoList : list Video) :
  allUniqueCategories (map Spec.withTags videoList)
  = allUniqueCategories videoList.
Proof.
  unfold allUniqueCategories, categoryFromField, categoriesFromTags.
  rewrite map_map. cbn [Spec.withTags category].
  do 5 f_equal.
  induction videoList as [|video l IH]; simpl; [reflexivity|].
  rewrite IH. unfold Spec.tagsOf. destruct (tags video); reflexivity.
Qed.

Lemma reconcile_withTags (localeCompare : string -> string -> Z)
      (videoList : list Video) :
  reconcile localeCompare (map Spec.withTags videoList)
  = reconcile localeCompare videoList.
Proof.
  unfold reconcile, loadVideos.
  now rewrite allUniqueCategories_withTags.
Qed.

End FaultFacts.

(** C9. No input makes a core function fault.  [filterVideos] and
    [formatDuration], which dereference optional values, never reach a
    member access on an absent value: with faults made explicit they return
    the results of the embedding.  An absent [tags] is read as the empty
    sequence by the filter and by the reconciler, an absent duration is
    formatted to an absent result, and the detector returns a category for
    any two texts. *)
Theorem core_functions_total :
  (forall videos selectedCategory searchTerm,
      Faulting.filterVideos videos selectedCategory searchTerm
      = Faulting.Ok (filterVideos videos selectedCategory searchTerm))
  /\ (forall duration,
         Faulting.formatDuration duration
         = Faulting.Ok (formatDuration duration))
  /\ (forall videos selectedCategory searchTerm,
         filterVideos (map Spec.withTags videos) selectedCategory searchTerm
         = map Spec.withTags
               (filterVideos videos selectedCategory searchTerm))
  /\ (forall localeCompare videoList,
         reconcile localeCompare (map Spec.withTags videoList)
         = reconcile localeCompare videoList)
  /\ formatDuration None = None
  /\ (forall localeCompare videoList,
         exists first rest,
           reconcile localeCompare videoList = first :: rest)
  /\ (forall title description,
         exists first rest,
           detectCategoriesFromContent title description = first :: rest).
Proof.
  split; [exact filterVideos_ok|].
  split; [exact formatDuration_ok|].
  split; [exact filterVideos_withTags|].
  split; [exact reconcile_withTags|].
  split; [reflexivity|].
  split.
  - intros localeCompare videoList.
    destruct (reconcile localeCompare videoList) as [|first rest] eqn:E;
      [|now exists first, rest].
    exfalso.
    assert (Hlen : List.length (reconcile localeCompare videoList) <> 0).
    { unfold reconcile, loadVideos, categories.
      destruct (allUniqueCategories videoList); cbn [List.length Nat.ltb Nat.leb].
      - discriminate.
      - rewrite (Permutation_length (sort_perm _ _)). discriminate. }
    now rewrite E in Hlen.
  - intros title description.
    pose proof (detect_nonempty title description) as Hne.
    destruct (detectCategoriesFromContent title description)
      as [|first rest]; [congruence | now exists first, rest].
Qed.


(* ================================================================== *)
(** * Part III: further properties of the code *)
(* ================================================================== *)

(** ** The admin form *)

Section FormFacts.

Import VideoForm.

Lemma step_tagsFollowSelection (s : State) (e : Event) :
  tagsFollowSelection s -> tagsFollowSelection (step s e).
Proof.
  unfold tagsFollowSelection. intros H.
  destruct e as [|video|url fetched|yd|checked c|value|value|isOpen video];
    cbn [step].
  - reflexivity.
  - destruct video; reflexivity.
  - destruct fetched; [reflexivity | exact H].
  - reflexivity.
  - reflexivity.
  - exact H.
  - exact H.
  - unfold handleOpenChange.
    destruct (negb isOpen && negb _); [reflexivity | exact H].
Qed.

Lemma fold_tagsFollowSelection (events : list Event) (s : State) :
  tagsFollowSelection s -> tagsFollowSelection (fold_left step events s).
Proof.
  revert s. induction events as [|e events IH]; intros s H; simpl.
  - exact H.
  - apply IH. now apply step_tagsFollowSelection.
Qed.

Lemma truthy_true_iff (s : string) : JSString.truthy s = true <-> s <> "".
Proof. destruct s; simpl; split; congruence. Qed.

Lemma length_zero_iff {A} (l : list A) :
  (List.length l =? 0)%nat = true <-> l = [].
Proof. destruct l; simpl; split; congruence. Qed.

Lemma detect_in_taxonomy (title0 description0 cat : string) :
  In cat (detectCategoriesFromContent title0 description0) ->
  In cat Spec.taxonomy.
Proof.
  rewrite detect_filter.
  destruct (filter _ Spec.taxonomy) as [|c l] eqn:E.
  - intros [<-|[]]. simpl. tauto.
  - rewrite <- E. intros H. apply filter_In in H. tauto.
Qed.

Lemma substring_length_le (n : nat) (s : string) :
  String.length (substring 0 n s) <= n.
Proof.
  revert s. induction n as [|n IH]; intros s.
  - destruct s; simpl; lia.
  - destruct s as [|c s]; simpl; [lia|]. specialize (IH s). lia.
Qed.

Lemma filter_absent_id (c : string) (l : list string) :
  ~ In c l -> filter (fun x => negb (String.eqb x c)) l = l.
Proof.
  induction l as [|x l IH]; simpl; [reflexivity|].
  intros H. destruct (String.eqb_spec x c) as [->|Hne]; simpl.
  - exfalso. apply H. now left.
  - f_equal. apply IH. tauto.
Qed.

End FormFacts.

(** X1. After any sequence of events of the form, starting from its initial
    state, the tags held in the form data are the selected categories. *)
Theorem form_tags_are_selection :
  forall events,
    VideoForm.tags (VideoForm.formData (VideoForm.run events))
    = VideoForm.selectedCategories (VideoForm.run events).
Proof.
  intros events. apply (fold_tagsFollowSelection events VideoForm.initial).
  reflexivity.
Qed.

(** X2. A change of a check box never leaves the selection empty: checking
    adds the category at the end, unchecking removes every occurrence of it
    and puts ["All"] when nothing is left.  The category of the form becomes
    the first selected one (["All"] when that one is the empty text). *)
Theorem onCategoryChange_selection :
  forall checked category0 s,
    let s' := VideoForm.onCategoryChange checked category0 s in
    let before := VideoForm.selectedCategories s in
    let after := VideoForm.selectedCategories s' in
    after <> []
    /\ VideoForm.tags (VideoForm.formData s') = after
    /\ (checked = true -> after = before ++ [category0])
    /\ (checked = false ->
        (forall c, In c after
                   <-> (In c before /\ c <> category0)
                       \/ (c = "All"
                           /\ forall x, In x before -> x = category0)))
    /\ (forall first rest,
           after = first :: rest -> first <> "" ->
           VideoForm.category (VideoForm.formData s') = first).
Proof.
  intros checked c s s' before after. subst s' before after.
  unfold VideoForm.onCategoryChange. cbn [VideoForm.selectedCategories
    VideoForm.formData VideoForm.tags VideoForm.category].
  set (kept := filter (fun x => negb (String.eqb x c))
                      (VideoForm.selectedCategories s)).
  assert (Hkept : forall x, In x kept
                            <-> In x (VideoForm.selectedCategories s)
                                /\ x <> c).
  { intros x. unfold kept.
    rewrite filter_In, negb_true_iff, String.eqb_neq. reflexivity. }
  split; [|split; [reflexivity | split; [|split]]].
  - destruct checked.
    + destruct (VideoForm.selectedCategories s); discriminate.
    + destruct kept; simpl; discriminate.
  - intros ->. reflexivity.
  - intros -> x.
    destruct kept as [|k kept'] eqn:E; cbn [List.length Nat.eqb].
    + unfold push. cbn [app]. split.
      * intros [<-|[]]. right. split; [reflexivity|].
        intros y Hy. destruct (string_dec y c) as [->|Hne]; [reflexivity|].
        exfalso. exact (proj2 (Hkept y) (conj Hy Hne)).
      * intros [H | [-> _]]; [|now left].
        exfalso. exact (proj2 (Hkept x) H).
    + rewrite Hkept. split; [now left|].
      intros [H | [_ Hall]]; [exact H|].
      exfalso. destruct (proj1 (Hkept k) (or_introl eq_refl)) as [Hin Hne].
      exact (Hne (Hall k Hin)).
  - intros first rest Hafter Hfirst.
    unfold VideoForm.firstOrAll. rewrite Hafter. cbn [nth_error].
    unfold VideoForm.orElse.
    now rewrite (proj2 (truthy_true_iff first) Hfirst).
Qed.

Lemma onCategoryChange_selection_witness :
  VideoForm.selectedCategories
    (VideoForm.onCategoryChange true "Music"
       (VideoForm.clearFormData VideoForm.initial))
  = ["All"; "Music"].
Proof.
  exact (proj1 (proj2 (proj2 (onCategoryChange_selection true "Music"
           (VideoForm.clearFormData VideoForm.initial)))) eq_refl).
Defined.

(** X3. With a check box that shows whether its category is selected (so
    that it is checked only when the category is not selected, and unchecked
    only when it is), a selection without repetitions stays without
    repetitions; and checking a category that was not selected, then
    unchecking it, gives back the selection there was, provided it was not
    empty. *)
Theorem onCategoryChange_controlled :
  forall category0 s,
    let before := VideoForm.selectedCategories s in
    let checked := negb (JSArray.includes before category0) in
    (NoDup before ->
     NoDup (VideoForm.selectedCategories
              (VideoForm.onCategoryChange checked category0 s)))
    /\ (~ In category0 before -> before <> [] ->
        VideoForm.selectedCategories
          (VideoForm.onCategoryChange false category0
             (VideoForm.onCategoryChange true category0 s))
        = before).
Proof.
  intros c s before checked. subst before checked. split.
  - intros Hnd. unfold VideoForm.onCategoryChange.
    cbn [VideoForm.selectedCategories].
    destruct (JSArray.includes (VideoForm.selectedCategories s) c) eqn:E;
      cbn [negb].
    + destruct (filter _ (VideoForm.selectedCategories s)) as [|k kept] eqn:Ek;
        cbn [List.length Nat.eqb].
      * repeat constructor. intros [].
      * rewrite <- Ek. now apply NoDup_filter.
    + apply NoDup_app; [exact Hnd | repeat constructor; intros [] |].
      intros x Hx [<-|[]].
      apply JSArray_includes_In in Hx. congruence.
  - intros Hout Hne. unfold VideoForm.onCategoryChange.
    cbn [VideoForm.selectedCategories].
    rewrite filter_app. cbn [filter]. rewrite String.eqb_refl. cbn [negb].
    rewrite app_nil_r, filter_absent_id by exact Hout.
    destruct (VideoForm.selectedCategories s); [congruence | reflexivity].
Qed.

Lemma onCategoryChange_controlled_witness :
  VideoForm.selectedCategories
    (VideoForm.onCategoryChange false "Music"
       (VideoForm.onCategoryChange true "Music"
          (VideoForm.clearFormData VideoForm.initial)))
  = ["All"].
Proof.
  refine (proj2 (onCategoryChange_controlled "Music"
                   (VideoForm.clearFormData VideoForm.initial)) _ _).
  - simpl. intros [H|[]]. discriminate.
  - discriminate.
Defined.

(** X4. Whatever happened to the form before, a submission is refused
    exactly when the title, the link or the selection is empty; otherwise the
    fields sent to the store are the form data as they stand, with a
    non-empty title, link and list of tags, as an update when the edited
    record has an identifier and as an addition otherwise. *)
Theorem handleSubmit_sends_form :
  forall events video,
    let s := VideoForm.run events in
    let fd := VideoForm.formData s in
    let complete :=
      VideoForm.title fd <> "" /\ VideoForm.videoUrl fd <> ""
      /\ VideoForm.tags fd <> [] in
    match VideoForm.handleSubmit video s with
    | VideoForm.Invalid => ~ complete
    | VideoForm.UpdateVideo id0 fields =>
        complete /\ fields = fd
        /\ exists v, video = Some v /\ id v = id0 /\ id0 <> ""
    | VideoForm.AddVideo fields =>
        complete /\ fields = fd
        /\ (video = None \/ exists v, video = Some v /\ id v = "")
    end.
Proof.
  intros events video s fd complete. subst complete fd.
  assert (Htags : VideoForm.tags (VideoForm.formData s)
                  = VideoForm.selectedCategories s)
    by (apply (fold_tagsFollowSelection events VideoForm.initial);
        reflexivity).
  unfold VideoForm.handleSubmit.
  destruct (JSString.truthy (VideoForm.title (VideoForm.formData s))) eqn:Et;
    cbn [negb orb].
  2:{ apply truthy_false_iff in Et. tauto. }
  destruct (JSString.truthy (VideoForm.videoUrl (VideoForm.formData s)))
    eqn:Eu; cbn [negb orb].
  2:{ apply truthy_false_iff in Eu. tauto. }
  destruct (List.length (VideoForm.selectedCategories s) =? 0)%nat eqn:El.
  { apply length_zero_iff in El. rewrite Htags. tauto. }
  apply truthy_true_iff in Et, Eu.
  assert (Hsel : VideoForm.tags (VideoForm.formData s) <> []).
  { rewrite Htags. intros H. apply length_zero_iff in H. congruence. }
  assert (Hfd : VideoForm.mkFormData
                  (VideoForm.title (VideoForm.formData s))
                  (VideoForm.description (VideoForm.formData s))
                  (VideoForm.videoUrl (VideoForm.formData s))
                  (VideoForm.category (VideoForm.formData s))
                  (VideoForm.selectedCategories s)
                  (VideoForm.thumbnail (VideoForm.formData s))
                = VideoForm.formData s).
  { rewrite <- Htags. destruct (VideoForm.formData s). reflexivity. }
  destruct video as [v|].
  - unfold videoId_. destruct (JSString.truthy (id v)) eqn:Ei.
    + apply truthy_true_iff in Ei. repeat split; trivial. now exists v.
    + apply truthy_false_iff in Ei. rewrite Hfd.
      repeat split; trivial. right. now exists v.
  - rewrite Hfd. repeat split; trivial. now left.
Qed.

(** X5. When the metadata of a link arrive, the tags and the selection
    become the detected categories, which never include ["All"], and the
    category becomes the first of them; a title already typed is kept and an
    empty one is taken from the metadata; an empty description is filled with
    at most 500 characters; the link and the thumbnail are the new ones. *)
Theorem handleYouTubeUrlChange_autofill :
  forall url youtubeData s,
    let s' := VideoForm.handleYouTubeUrlChange url (Some youtubeData) s in
    let fd := VideoForm.formData s in
    let fd' := VideoForm.formData s' in
    let detected :=
      detectCategoriesFromContent (VideoForm.ytTitle youtubeData)
                                  (VideoForm.ytDescription youtubeData) in
    VideoForm.tags fd' = detected
    /\ VideoForm.selectedCategories s' = detected
    /\ ~ In "All" (VideoForm.tags fd')
    /\ (exists rest, detected = VideoForm.category fd' :: rest)
    /\ (VideoForm.title fd <> "" -> VideoForm.title fd' = VideoForm.title fd)
    /\ (VideoForm.title fd = "" ->
        VideoForm.title fd' = VideoForm.ytTitle youtubeData)
    /\ (VideoForm.description fd <> "" ->
        VideoForm.description fd' = VideoForm.description fd)
    /\ (VideoForm.description fd = "" ->
        String.length (VideoForm.description fd') <= 500)
    /\ VideoForm.videoUrl fd' = url
    /\ VideoForm.thumbnail fd' = VideoForm.ytThumbnail youtubeData.
Proof.
  intros url yd s s' fd fd' detected. subst s' fd fd'.
  unfold VideoForm.handleYouTubeUrlChange, VideoForm.applyYouTubeData,
    VideoForm.setVideoUrl.
  cbn [VideoForm.formData VideoForm.selectedCategories VideoForm.tags
       VideoForm.category VideoForm.title VideoForm.description
       VideoForm.videoUrl VideoForm.thumbnail].
  fold detected.
  pose proof (detect_nonempty (VideoForm.ytTitle yd)
                              (VideoForm.ytDescription yd)) as Hne.
  pose proof (detect_in_taxonomy (VideoForm.ytTitle yd)
                                 (VideoForm.ytDescription yd)) as Htax.
  fold detected in Hne, Htax.
  destruct detected as [|c rest]; [congruence|].
  cbn [List.length Nat.ltb Nat.leb].
  unfold VideoForm.orElse.
  repeat split.
  - intros Hall. apply Htax in Hall. simpl in Hall.
    repeat (destruct Hall as [Hall|Hall]; [discriminate|]). exact Hall.
  - now exists rest.
  - intros H. now rewrite (proj2 (truthy_true_iff _) H).
  - intros H. now rewrite H.
  - intros H. now rewrite (proj2 (truthy_true_iff _) H).
  - intros H. rewrite H. cbn [JSString.truthy]. apply substring_length_le.
Qed.

Lemma handleYouTubeUrlChange_autofill_witness :
  VideoForm.title
    (VideoForm.formData
       (VideoForm.handleYouTubeUrlChange "https://youtu.be/q"
          (Some (VideoForm.mkYouTubeData "Street talk" "" "t.jpg"))
          (VideoForm.clearFormData VideoForm.initial)))
  = "Street talk".
Proof.
  exact (proj1 (proj2 (proj2 (proj2 (proj2 (proj2
           (handleYouTubeUrlChange_autofill "https://youtu.be/q"
              (VideoForm.mkYouTubeData "Street talk" "" "t.jpg")
              (VideoForm.clearFormData VideoForm.initial))))))) eq_refl).
Defined.

(** ** The thumbnail of a record *)

Section ThumbnailFacts.

Local Open Scope string_scope.

Lemma literal_self (lit rest : string) :
  UrlRegExp.literal lit (lit ++ rest) = Some rest.
Proof.
  induction lit as [|a lit IH]; cbn [append UrlRegExp.literal].
  - reflexivity.
  - now rewrite Ascii.eqb_refl.
Qed.

Lemma literal_startsWith (lit s rest : string) :
  UrlRegExp.literal lit s = Some rest -> JSString.startsWith s lit = true.
Proof.
  revert s. induction lit as [|a lit IH]; intros s;
    cbn [UrlRegExp.literal JSString.startsWith]; [reflexivity|].
  destruct s as [|b s]; [discriminate|].
  destruct (Ascii.eqb a b); [|discriminate].
  intros H. cbn [andb]. now apply IH.
Qed.

Lemma startsWith_shorter (s a b : string) :
  JSString.startsWith s (a ++ b) = true -> JSString.startsWith s a = true.
Proof.
  rewrite !startsWith_iff. intros [r ->]. exists (b ++ r).
  apply append_assoc.
Qed.

(** The pattern, alternative by alternative. *)
Lemma videoIdPattern_eq (s : string) (caps : JSRegExp.captures)
      (k : string -> JSRegExp.captures -> option JSRegExp.captures) :
  UrlRegExp.matchAt videoIdPattern s caps k
  = let identifier := fun s' =>
        UrlRegExp.runThen idExcluded s'
          (fun s'' =>
             k s'' (JSRegExp.setCapture 1 (JSRegExp.consumed s' s'') caps)) in
    let after lit :=
        match UrlRegExp.literal lit s with
        | Some s' => identifier s'
        | None => None
        end in
    match after "youtube.com/watch?v=" with
    | Some res => Some res
    | None =>
        match after "youtu.be/" with
        | Some res => Some res
        | None => after "youtube.com/embed/"
        end
    end.
Proof. reflexivity. Qed.

(** A match of the pattern begins with [youtu]. *)
Lemma videoIdPattern_needs_youtu (s : string) (caps : JSRegExp.captures)
      (k : string -> JSRegExp.captures -> option JSRegExp.captures) :
  JSString.startsWith s "youtu" = false ->
  UrlRegExp.matchAt videoIdPattern s caps k = None.
Proof.
  intros H. rewrite videoIdPattern_eq. cbv beta zeta.
  assert (Hlit : forall tail,
             UrlRegExp.literal ("youtu" ++ tail) s = None).
  { intros tail. destruct (UrlRegExp.literal ("youtu" ++ tail) s) eqn:E;
      [|reflexivity].
    apply literal_startsWith, startsWith_shorter in E. congruence. }
  change "youtube.com/watch?v=" with ("youtu" ++ "be.com/watch?v=").
  change "youtu.be/" with ("youtu" ++ ".be/").
  change "youtube.com/embed/" with ("youtu" ++ "be.com/embed/").
  now rewrite !Hlit.
Qed.

Lemma exec_without_youtu (url : string) :
  JSString.includes url "youtu" = false ->
  UrlRegExp.exec videoIdPattern url = None.
Proof.
  induction url as [|c url IH]; cbn [JSString.includes]; intros H;
    apply orb_false_iff in H; destruct H as [Hhere Hrest];
    cbn [UrlRegExp.exec];
    rewrite videoIdPattern_needs_youtu by exact Hhere;
    [reflexivity | now apply IH].
Qed.

Lemma lacks_startsWith (c : ascii) (pre rest lit : string) (d : ascii) :
  lacks c (String d pre) = true ->
  JSString.startsWith (String d pre ++ rest) (String c lit) = false.
Proof.
  cbn [lacks append JSString.startsWith]. intros H.
  apply andb_true_iff in H. destruct H as [H _].
  apply negb_true_iff in H. now rewrite H.
Qed.

(** Positions in front of which no [y] stands are passed over. *)
Lemma exec_skip (pre s : string) :
  lacks "y" pre = true ->
  UrlRegExp.exec videoIdPattern (pre ++ s) = UrlRegExp.exec videoIdPattern s.
Proof.
  induction pre as [|d pre IH]; intros H; [reflexivity|].
  change (String d pre ++ s) with (String d (pre ++ s)).
  cbn [UrlRegExp.exec].
  rewrite videoIdPattern_needs_youtu.
  - apply IH. cbn [lacks] in H. now apply andb_true_iff in H.
  - apply (lacks_startsWith "y" pre s "outu" d H).
Qed.

Lemma runThen_stops {R} (rest : string) (k : string -> option R) :
  stops rest = true -> UrlRegExp.runThen idExcluded rest k = None.
Proof.
  destruct rest as [|c rest]; cbn [stops UrlRegExp.runThen]; [reflexivity|].
  intros H. apply negb_true_iff in H. now rewrite H.
Qed.

(** The identifier is the longest run of allowed characters. *)
Lemma runThen_run {R} (ident rest : string) (k : string -> option R) :
  allAllowed ident = true -> ident <> "" -> stops rest = true ->
  k rest <> None ->
  UrlRegExp.runThen idExcluded (ident ++ rest) k = k rest.
Proof.
  intros Hall Hne Hstop Hk. induction ident as [|c ident IH]; [congruence|].
  cbn [allAllowed] in Hall. apply andb_true_iff in Hall.
  destruct Hall as [Hc Hall].
  cbn [append UrlRegExp.runThen]. rewrite Hc.
  destruct ident as [|d ident].
  - cbn [append]. now rewrite runThen_stops.
  - rewrite IH by (trivial; discriminate).
    destruct (k rest); [reflexivity | congruence].
Qed.

Lemma marker_match (marker ident rest : string) :
  In marker linkMarkers ->
  allAllowed ident = true -> ident <> "" -> stops rest = true ->
  UrlRegExp.matchAt videoIdPattern (marker ++ ident ++ rest)
                    JSRegExp.noCaptures (fun _ caps => Some caps)
  = Some (JSRegExp.setCapture 1 ident JSRegExp.noCaptures).
Proof.
  intros Hm Hall Hne Hstop.
  assert (Hid : forall caps,
             UrlRegExp.runThen idExcluded (ident ++ rest)
               (fun s'' =>
                  Some (JSRegExp.setCapture 1
                          (JSRegExp.consumed (ident ++ rest) s'') caps))
             = Some (JSRegExp.setCapture 1 ident caps)).
  { intros caps. rewrite runThen_run by (trivial; discriminate).
    now rewrite consumed_app. }
  rewrite videoIdPattern_eq. cbv beta zeta.
  destruct Hm as [<-|[<-|[<-|[]]]].
  - rewrite literal_self. now rewrite Hid.
  - replace (UrlRegExp.literal "youtube.com/watch?v="
               ("youtu.be/" ++ ident ++ rest)) with (@None string)
      by reflexivity.
    rewrite literal_self. now rewrite Hid.
  - replace (UrlRegExp.literal "youtube.com/watch?v="
               ("youtube.com/embed/" ++ ident ++ rest)) with (@None string)
      by reflexivity.
    replace (UrlRegExp.literal "youtu.be/"
               ("youtube.com/embed/" ++ ident ++ rest)) with (@None string)
      by reflexivity.
    rewrite literal_self. now rewrite Hid.
Qed.

Lemma exec_here_url (s : string) (caps : JSRegExp.captures) :
  UrlRegExp.matchAt videoIdPattern s JSRegExp.noCaptures
                    (fun _ c => Some c) = Some caps ->
  UrlRegExp.exec videoIdPattern s = Some caps.
Proof. intros H. destruct s; cbn [UrlRegExp.exec]; now rewrite H. Qed.

End ThumbnailFacts.

(** X6. For a record without a thumbnail of its own whose link is one of the
    three known shapes ([youtube.com/watch?v=], [youtu.be/],
    [youtube.com/embed/]) after a prefix without the letter y, the thumbnail
    is the [maxresdefault] image of the identifier, the identifier being the
    characters after the marker up to the end of the link or to the first of
    [&], [?], [#] or a line feed. *)
Theorem getThumbnailUrl_identifier :
  forall video pre marker ident rest,
    present (thumbnail video) = false ->
    In marker linkMarkers ->
    lacks "y" pre = true ->
    ident <> "" -> allAllowed ident = true -> stops rest = true ->
    videoUrl video = (pre ++ marker ++ ident ++ rest)%string ->
    getThumbnailUrl video
    = Some ("https://img.youtube.com/vi/" ++ ident
            ++ "/maxresdefault.jpg")%string.
Proof.
  intros video pre marker ident rest Hth Hm Hpre Hne Hall Hstop Hurl.
  unfold getThumbnailUrl. rewrite Hth, Hurl, exec_skip by exact Hpre.
  rewrite (exec_here_url _ _ (marker_match marker ident rest Hm Hall Hne Hstop)).
  cbv zeta. unfold JSRegExp.setCapture. cbn [Nat.eqb].
  now rewrite (proj2 (truthy_true_iff ident) Hne).
Qed.

Lemma getThumbnailUrl_identifier_witness :
  getThumbnailUrl
    (mkVideo "w" "Live set" "" "https://www.youtube.com/watch?v=dQw4w9WgXcQ&t=42"
             None "Music" None None)
  = Some "https://img.youtube.com/vi/dQw4w9WgXcQ/maxresdefault.jpg".
Proof.
  exact (getThumbnailUrl_identifier
           (mkVideo "w" "Live set" ""
                    "https://www.youtube.com/watch?v=dQw4w9WgXcQ&t=42"
                    None "Music" None None)
           "https://www." "youtube.com/watch?v=" "dQw4w9WgXcQ" "&t=42"
           eq_refl (or_introl eq_refl) eq_refl
           (fun H => match H with end) eq_refl eq_refl eq_refl).
Defined.

(** X7. A non-empty thumbnail of the record is returned as it is, whatever
    the link; without one, a link in which [youtu] does not occur gives no
    thumbnail. *)
Theorem getThumbnailUrl_fallback :
  (forall video own,
      thumbnail video = Some own -> own <> "" ->
      getThumbnailUrl video = Some own)
  /\ (forall video,
         present (thumbnail video) = false ->
         JSString.includes (videoUrl video) "youtu" = false ->
         getThumbnailUrl video = None).
Proof.
  split.
  - intros video own Hown Hne. unfold getThumbnailUrl. rewrite Hown.
    cbn [present]. now rewrite (proj2 (truthy_true_iff own) Hne).
  - intros video Hth Hurl. unfold getThumbnailUrl.
    now rewrite Hth, exec_without_youtu.
Qed.

Lemma getThumbnailUrl_fallback_witness :
  getThumbnailUrl
    (mkVideo "v" "Clip" "" "https://vimeo.com/76979871" (Some "") "Music"
             None None)
  = None.
Proof.
  exact (proj2 getThumbnailUrl_fallback
               (mkVideo "v" "Clip" "" "https://vimeo.com/76979871" (Some "")
                        "Music" None None)
               eq_refl eq_refl).
Defined.

(** ** More on the category list *)

Section CategoryListFacts.

Lemma allUniqueCategories_iff (videoList : list Video) (x : string) :
  In x (allUniqueCategories videoList) <-> observedIn videoList x.
Proof.
  unfold observedIn. split.
  - intros H. split.
    + unfold allUniqueCategories in H. apply filterBoolean_In in H. tauto.
    + now apply allUniqueCategories_In.
  - intros [Hne [video [Hin Hx]]].
    unfold allUniqueCategories, categoryFromField, categoriesFromTags.
    rewrite filterBoolean_In, newSet_In, in_app_iff,
      !filterBoolean_In, !newSet_In, in_map_iff, in_flat_map.
    split; [|exact Hne].
    destruct Hx as [Hx|Hx]; [left | right]; (split; [|exact Hne]);
      exists video; auto.
Qed.

Lemma allUniqueCategories_NoDup (videoList : list Video) :
  NoDup (allUniqueCategories videoList).
Proof. apply NoDup_filter, newSet_NoDup. Qed.

Lemma reconcile_In (localeCompare : string -> string -> Z)
      (videoList : list Video) (x : string) :
  In x (reconcile localeCompare videoList)
  <-> In x staticCategories \/ In x (allUniqueCategories videoList).
Proof.
  destruct (allUniqueCategories videoList) as [|c all] eqn:E.
  - rewrite reconcile_nothing_observed by exact E. simpl. tauto.
  - rewrite reconcile_observed by (rewrite E; discriminate).
    rewrite sort_In. rewrite E.
    change (In x ("All" :: JSArray.slice1 staticCategories
                  ++ filter (notIn (JSArray.slice1 staticCategories))
                       (JSArray.newSet
                          (JSArray.sort JSString.defaultCompare (c :: all)))))
      with ("All" = x
            \/ In x (JSArray.slice1 staticCategories
                     ++ filter (notIn (JSArray.slice1 staticCategories))
                          (JSArray.newSet
                             (JSArray.sort JSString.defaultCompare
                                (c :: all))))).
    rewrite in_app_iff, filter_In, newSet_In, sort_In, notIn_spec.
    change (In x staticCategories)
      with ("All" = x \/ In x (JSArray.slice1 staticCategories)).
    destruct (in_dec string_dec x (JSArray.slice1 staticCategories)); tauto.
Qed.

(** The merged list before sorting has no repetition after its head. *)
Lemma merged_NoDup (l : list string) :
  NoDup (JSArray.slice1 staticCategories
         ++ filter (notIn (JSArray.slice1 staticCategories))
              (JSArray.newSet l)).
Proof.
  apply NoDup_app.
  - simpl. repeat constructor; simpl; intuition discriminate.
  - apply NoDup_filter, newSet_NoDup.
  - intros x Hx Hf. apply filter_In in Hf. destruct Hf as [_ Hf].
    apply notIn_spec in Hf. contradiction.
Qed.

Lemma defaultCompare_antisym (a b : string) :
  (JSString.defaultCompare a b <= 0)%Z ->
  (JSString.defaultCompare b a <= 0)%Z -> a = b.
Proof.
  rewrite !defaultCompare_le, (String.compare_antisym a b).
  destruct (String.compare b a) eqn:E; simpl; intros H1 H2;
    [| congruence | congruence].
  symmetry. now apply String.compare_eq_iff.
Qed.

(** Two sorted lists with the same elements, each once, are equal. *)
Lemma sorted_unique (l1 l2 : list string) :
  StronglySorted (fun a b => (JSString.defaultCompare a b <= 0)%Z) l1 ->
  StronglySorted (fun a b => (JSString.defaultCompare a b <= 0)%Z) l2 ->
  Permutation l1 l2 -> l1 = l2.
Proof.
  intros H1. revert l2. induction H1 as [|x l1 Hs1 IH Hx]; intros l2 H2 Hp.
  - apply Permutation_nil in Hp. now subst.
  - destruct H2 as [|y l2 Hs2 Hy].
    + apply Permutation_sym, Permutation_nil in Hp. discriminate.
    + assert (x = y).
      { assert (Hxin : In x (y :: l2))
          by (apply (Permutation_in _ Hp); now left).
        assert (Hyin : In y (x :: l1))
          by (apply (Permutation_in _ (Permutation_sym Hp)); now left).
        destruct Hxin as [->|Hxin]; [reflexivity|].
        destruct Hyin as [->|Hyin]; [reflexivity|].
        rewrite Forall_forall in Hx, Hy.
        apply defaultCompare_antisym; [now apply Hx | now apply Hy]. }
      subst y. f_equal. apply IH; [exact Hs2|].
      now apply Permutation_cons_inv in Hp.
Qed.

Lemma sorted_observed_eq (l1 l2 : list string) :
  NoDup l1 -> NoDup l2 -> (forall x, In x l1 <-> In x l2) ->
  JSArray.sort JSString.defaultCompare l1
  = JSArray.sort JSString.defaultCompare l2.
Proof.
  intros Hn1 Hn2 Hsame.
  apply sorted_unique.
  - apply sort_sorted; [apply defaultCompare_total | apply defaultCompare_trans].
  - apply sort_sorted; [apply defaultCompare_total | apply defaultCompare_trans].
  - rewrite !sort_perm. now apply NoDup_Permutation.
Qed.

Lemma loadVideos_same_observed (dynamicCategories : list string)
      (videos1 videos2 : list Video) :
  (forall x, In x (allUniqueCategories videos1)
             <-> In x (allUniqueCategories videos2)) ->
  loadVideos dynamicCategories videos1 = loadVideos dynamicCategories videos2.
Proof.
  intros Hsame. unfold loadVideos.
  rewrite (sorted_observed_eq _ _ (allUniqueCategories_NoDup videos1)
             (allUniqueCategories_NoDup videos2) Hsame).
  destruct (allUniqueCategories videos1) as [|a l1] eqn:E1;
    destruct (allUniqueCategories videos2) as [|b l2] eqn:E2;
    try reflexivity.
  - exfalso. apply (proj2 (Hsame b)). now left.
  - exfalso. apply (proj1 (Hsame a)). now left.
Qed.

Lemma loadVideos_observing (dyn1 dyn2 : list string) (videoList : list Video) :
  (0 <? List.length (allUniqueCategories videoList))%nat = true ->
  loadVideos dyn1 videoList = loadVideos dyn2 videoList.
Proof. intros H. unfold loadVideos. now rewrite H. Qed.

Lemma fold_loadVideos (loads : list (list Video)) (acc : option (list Video)) :
  fold_left loadVideos loads
            (match acc with
             | Some videoList => loadVideos [] videoList
             | None => []
             end)
  = match fold_left (fun acc videoList =>
                       if (0 <? List.length
                                  (allUniqueCategories videoList))%nat
                       then Some videoList else acc) loads acc with
    | Some videoList => loadVideos [] videoList
    | None => []
    end.
Proof.
  revert acc. induction loads as [|videoList loads IH]; intros acc;
    [reflexivity|].
  cbn [fold_left].
  destruct (0 <? List.length (allUniqueCategories videoList))%nat eqn:E.
  - rewrite <- (IH (Some videoList)). f_equal.
    now apply loadVideos_observing.
  - rewrite <- (IH acc). f_equal. unfold loadVideos at 1. now rewrite E.
Qed.

End CategoryListFacts.

(** X8. Right after a load in which some category was observed, whatever
    the list was before, a category is in the list shown exactly when it
    belongs to the baseline or is a non-empty category or tag of a record of
    that load.  After any sequence of loads on a freshly mounted page, the
    list shown holds the baseline and what the last load that observed a
    category observed. *)
Theorem categories_membership :
  forall localeCompare,
    (forall dynamicCategories videoList x,
        allUniqueCategories videoList <> [] ->
        In x (categories localeCompare
                         (loadVideos dynamicCategories videoList))
        <-> In x staticCategories \/ observedIn videoList x)
    /\ (forall loads x,
           In x (categories localeCompare (fold_left loadVideos loads []))
           <-> In x staticCategories
               \/ exists last, lastObserving loads = Some last
                                /\ observedIn last x).
Proof.
  intros localeCompare. split.
  - intros dyn videoList x Hobs.
    rewrite (loadVideos_observing dyn [] videoList)
      by (destruct (allUniqueCategories videoList);
          [congruence | reflexivity]).
    rewrite <- allUniqueCategories_iff. apply reconcile_In.
  - intros loads x. rewrite (fold_loadVideos loads None).
    fold (lastObserving loads).
    destruct (lastObserving loads) as [last|].
    + fold (reconcile localeCompare last).
      rewrite reconcile_In, allUniqueCategories_iff. split.
      * intros [H|H]; [now left | right; now exists last].
      * intros [H|[last' [Hlast H]]]; [now left | right].
        injection Hlast as <-. exact H.
    + split; [intros H; now left|].
      intros [H|[last [Hlast _]]]; [exact H | discriminate].
Qed.

Lemma categories_membership_witness :
  In "Zed" (categories JSString.defaultCompare
                       (loadVideos ["All"; "Old"] [exampleC]))
  <-> In "Zed" staticCategories \/ observedIn [exampleC] "Zed".
Proof.
  refine (proj1 (categories_membership JSString.defaultCompare)
                ["All"; "Old"] [exampleC] "Zed" _).
  vm_compute. discriminate.
Defined.

(** X9. The list shown depends on which records were loaded, not on their
    order nor on how often each one comes: two loads with the same records
    give the same list. *)
Theorem reconcile_order_independent :
  forall localeCompare videos1 videos2,
    (forall video, In video videos1 <-> In video videos2) ->
    reconcile localeCompare videos1 = reconcile localeCompare videos2.
Proof.
  intros localeCompare videos1 videos2 Hsame. unfold reconcile. f_equal.
  apply loadVideos_same_observed. intros x.
  rewrite !allUniqueCategories_iff. unfold observedIn.
  split; intros [Hne [video [Hin Hx]]]; (split; [exact Hne|]);
    exists video; (split; [now apply Hsame | exact Hx]).
Qed.

Lemma reconcile_order_independent_witness :
  reconcile JSString.defaultCompare [exampleA; exampleC; exampleB]
  = reconcile JSString.defaultCompare [exampleB; exampleA; exampleC; exampleA].
Proof.
  apply (reconcile_order_independent JSString.defaultCompare
           [exampleA; exampleC; exampleB]
           [exampleB; exampleA; exampleC; exampleA]).
  intros video. simpl. tauto.
Defined.

(** X10. After any sequence of loads on a freshly mounted page, the list
    shown is that of the last load in which some category was observed, and
    the baseline when there was none: a load that observes nothing (an empty
    list of records, for one) leaves the list as it was. *)
Theorem categories_after_loads :
  forall localeCompare loads,
    categories localeCompare (fold_left loadVideos loads [])
    = match lastObserving loads with
      | Some videoList => reconcile localeCompare videoList
      | None => staticCategories
      end.
Proof.
  intros localeCompare loads. unfold lastObserving.
  rewrite (fold_loadVideos loads None).
  destruct (fold_left _ loads None); reflexivity.
Qed.

Lemma reconcile_count :
  forall localeCompare videoList,
    (forall x, x <> "All" ->
               count_occ string_dec (reconcile localeCompare videoList) x
               <= 1)
    /\ count_occ string_dec (reconcile localeCompare videoList) "All"
       = if JSArray.includes (allUniqueCategories videoList) "All"
         then 2 else 1.
Proof.
  intros localeCompare videoList.
  destruct (allUniqueCategories videoList) as [|c all] eqn:E.
  - rewrite reconcile_nothing_observed by exact E. split.
    + intros x Hx. apply NoDup_count_occ.
      repeat constructor; simpl; intuition discriminate.
    + reflexivity.
  - rewrite reconcile_observed by (rewrite E; discriminate).
    rewrite E.
    set (merged := JSArray.slice1 staticCategories
                   ++ filter (notIn (JSArray.slice1 staticCategories))
                        (JSArray.newSet
                           (JSArray.sort JSString.defaultCompare (c :: all)))).
    assert (Hcount : forall x,
               count_occ string_dec
                 (JSArray.sort (preferredCompare localeCompare)
                               ("All" :: merged)) x
               = count_occ string_dec ("All" :: merged) x).
    { intros x. apply Permutation_count_occ. apply sort_perm. }
    pose proof (merged_NoDup
                  (JSArray.sort JSString.defaultCompare (c :: all))) as Hnd.
    fold merged in Hnd.
    split.
    + intros x Hx. rewrite Hcount, count_occ_cons_neq by congruence.
      now apply NoDup_count_occ.
    + rewrite Hcount, count_occ_cons_eq by reflexivity.
      destruct (JSArray.includes (c :: all) "All") eqn:Einc.
      * apply JSArray_includes_In in Einc. f_equal.
        apply NoDup_count_occ'; [exact Hnd|].
        apply in_or_app. right. apply filter_In. split.
        -- apply newSet_In. now apply sort_In.
        -- reflexivity.
      * f_equal. apply count_occ_not_In. intros Hin.
        apply in_app_or in Hin. destruct Hin as [Hin|Hin].
        -- simpl in Hin. intuition discriminate.
        -- apply filter_In in Hin. destruct Hin as [Hin _].
           apply newSet_In, sort_In, JSArray_includes_In in Hin. congruence.
Qed.

(** X11. In the list shown after any sequence of loads on a freshly mounted
    page, every category other than ["All"] occurs at most once, and
    ["All"] occurs twice when it is among the categories observed by the
    last load that observed any, and once otherwise. *)
Theorem categories_occurrences :
  forall localeCompare loads,
    let shown := categories localeCompare (fold_left loadVideos loads []) in
    (forall x, x <> "All" -> count_occ string_dec shown x <= 1)
    /\ count_occ string_dec shown "All"
       = match lastObserving loads with
         | Some last =>
             if JSArray.includes (allUniqueCategories last) "All"
             then 2 else 1
         | None => 1
         end.
Proof.
  intros localeCompare loads shown. subst shown.
  rewrite (fold_loadVideos loads None). fold (lastObserving loads).
  destruct (lastObserving loads) as [last|].
  - fold (reconcile localeCompare last). apply reconcile_count.
  - split; [|reflexivity].
    intros x Hx. apply NoDup_count_occ.
    repeat constructor; simpl; intuition discriminate.
Qed.

Lemma categories_occurrences_witness :
  count_occ string_dec
            (categories JSString.defaultCompare
                        (fold_left loadVideos [[seededVideo; exampleC]; []] []))
            "Music"
  <= 1.
Proof.
  refine (proj1 (categories_occurrences JSString.defaultCompare
                   [[seededVideo; exampleC]; []]) "Music" _).
  discriminate.
Defined.

(** ** More on the video filter *)

Section SearchFacts.

Local Open Scope string_scope.

Lemma blank_app (a b : string) : blank (a ++ b) = blank a && blank b.
Proof.
  induction a as [|c a IH]; cbn [append blank]; [reflexivity|].
  rewrite IH. apply andb_assoc.
Qed.

(** The trimmed term is empty exactly when the term is blank. *)
Lemma truthy_trim (s : string) :
  JSString.truthy (JSString.trim s) = negb (blank s).
Proof.
  induction s as [|c s IH]; [reflexivity|].
  unfold JSString.trim in *. cbn [JSString.trimStart blank].
  destruct (JSString.isSpace c) eqn:Ec; cbn [andb].
  - exact IH.
  - destruct (trimEnd_head c s Ec) as [r Hr]. rewrite Hr. reflexivity.
Qed.

Lemma lowerChar_idempotent (c : ascii) :
  JSString.lowerChar (JSString.lowerChar c) = JSString.lowerChar c.
Proof. destruct c as [[] [] [] [] [] [] [] []]; reflexivity. Qed.

Lemma lowerChar_space (c : ascii) :
  JSString.isSpace (JSString.lowerChar c) = JSString.isSpace c.
Proof. destruct c as [[] [] [] [] [] [] [] []]; reflexivity. Qed.

Lemma toLowerCase_idempotent (s : string) :
  JSString.toLowerCase (JSString.toLowerCase s) = JSString.toLowerCase s.
Proof.
  induction s as [|c s IH]; cbn [JSString.toLowerCase]; [reflexivity|].
  now rewrite lowerChar_idempotent, IH.
Qed.

Lemma blank_toLowerCase (s : string) :
  blank (JSString.toLowerCase s) = blank s.
Proof.
  induction s as [|c s IH]; cbn [JSString.toLowerCase blank]; [reflexivity|].
  now rewrite lowerChar_space, IH.
Qed.

(** A term that matches a record has only parts that match it. *)
Lemma textStage_part (a term b : string) (video : Video) :
  textStage (a ++ term ++ b) video = true -> textStage term video = true.
Proof.
  assert (Hinc : forall text,
             JSString.includes text (JSString.toLowerCase (a ++ term ++ b))
             = true ->
             JSString.includes text (JSString.toLowerCase term) = true).
  { intros text. rewrite !toLowerCase_app. apply includes_part. }
  unfold textStage. rewrite !orb_true_iff.
  intros [[H|H]|H]; auto.
  right. destruct (tags video) as [t|]; [|discriminate]. simpl in *.
  rewrite existsb_exists in *. destruct H as [tag [Hin Htag]].
  exists tag. auto.
Qed.

Lemma keeps_part (selectedCategory a term b : string) (video : Video) :
  keeps selectedCategory (a ++ term ++ b) video = true ->
  keeps selectedCategory term video = true.
Proof.
  unfold keeps. rewrite !andb_true_iff, !truthy_trim, !negb_involutive.
  intros [Hcat Htext]. split; [exact Hcat|].
  destruct (blank term) eqn:Eterm; [reflexivity|].
  rewrite !blank_app, Eterm, andb_false_r in Htext. cbn [andb orb] in *.
  now apply textStage_part in Htext.
Qed.

(** The text stage sees a term through its lower-case form only. *)
Lemma textStage_lower (term1 term2 : string) (video : Video) :
  JSString.toLowerCase term1 = JSString.toLowerCase term2 ->
  textStage term1 video = textStage term2 video.
Proof. intros H. unfold textStage. now rewrite H. Qed.

End SearchFacts.

(** X12. For search terms of ASCII text, typing more never shows more:
    every record shown for a term with characters added in front of it or
    after it is shown for the term itself. *)
Theorem filterVideos_narrowing :
  forall videos selectedCategory front term back video,
    asciiText front = true -> asciiText term = true ->
    asciiText back = true ->
    In video (filterVideos videos selectedCategory
                           (front ++ term ++ back)%string) ->
    In video (filterVideos videos selectedCategory term).
Proof.
  intros videos sel front term back video _ _ _.
  rewrite !filterVideos_keeps, !filter_In.
  intros [Hin Hk]. split; [exact Hin|]. now apply keeps_part in Hk.
Qed.

Lemma filterVideos_narrowing_witness :
  In exampleB (filterVideos [exampleA; exampleB] "All" "free").
Proof.
  apply (filterVideos_narrowing [exampleA; exampleB] "All" "" "free" "style"
                                exampleB eq_refl eq_refl eq_refl).
  vm_compute. left. reflexivity.
Defined.

(** X13. A search term made of white space only filters nothing: the result
    is that of the empty term, the records of the selected category. *)
Theorem filterVideos_blank_term :
  forall videos selectedCategory searchTerm,
    blank searchTerm = true ->
    filterVideos videos selectedCategory searchTerm
    = filterVideos videos selectedCategory "".
Proof.
  intros videos sel term Hblank. unfold filterVideos.
  rewrite !truthy_trim, Hblank. reflexivity.
Qed.

Lemma filterVideos_blank_term_witness :
  filterVideos [exampleA; exampleB] "Music" "   "
  = filterVideos [exampleA; exampleB] "Music" "".
Proof.
  exact (filterVideos_blank_term [exampleA; exampleB] "Music" "   " eq_refl).
Defined.

(** X14. Filtering by category and by text at once is filtering by one and
    then by the other, in either order. *)
Theorem filterVideos_stages_commute :
  forall videos selectedCategory searchTerm,
    filterVideos videos selectedCategory searchTerm
    = filterVideos (filterVideos videos selectedCategory "") "All" searchTerm
    /\ filterVideos videos selectedCategory searchTerm
       = filterVideos (filterVideos videos "All" searchTerm)
                      selectedCategory "".
Proof.
  intros videos sel term. rewrite !filterVideos_keeps, !filter_filter.
  split; apply filter_ext; intros video; unfold keeps;
    change (JSString.truthy (JSString.trim "")) with false;
    change (String.eqb "All" "All") with true;
    cbn [negb orb andb]; rewrite ?andb_true_r; [reflexivity|].
  apply andb_comm.
Qed.

(** X15. The letter case of the search term does not matter: two terms with
    the same lower-case form give the same result. *)
Theorem filterVideos_term_case :
  forall videos selectedCategory term1 term2,
    JSString.toLowerCase term1 = JSString.toLowerCase term2 ->
    filterVideos videos selectedCategory term1
    = filterVideos videos selectedCategory term2.
Proof.
  intros videos sel term1 term2 H. rewrite !filterVideos_keeps.
  apply filter_ext. intros video. unfold keeps.
  rewrite !truthy_trim, (textStage_lower term1 term2 video H).
  now rewrite <- (blank_toLowerCase term1), H, blank_toLowerCase.
Qed.

Lemma filterVideos_term_case_witness :
  filterVideos [exampleA; exampleB] "All" "FreeStyle"
  = filterVideos [exampleA; exampleB] "All" "freestyle".
Proof.
  exact (filterVideos_term_case [exampleA; exampleB] "All"
                                "FreeStyle" "freestyle" eq_refl).
Defined.

(** ** More on the duration formatter *)

Section DurationFacts.

Local Open Scope string_scope.

Lemma lacks_app (c : ascii) (a b : string) :
  lacks c (a ++ b) = lacks c a && lacks c b.
Proof.
  induction a as [|d a IH]; cbn [append lacks]; [reflexivity|].
  rewrite IH. apply andb_assoc.
Qed.

Lemma lacks_digits (c : ascii) (s : string) :
  JSNumber.isDigit c = false -> allDigits s = true -> lacks c s = true.
Proof.
  intros Hc. induction s as [|d s IH]; cbn [allDigits lacks]; [reflexivity|].
  intros H. apply andb_true_iff in H. destruct H as [Hd Hs].
  rewrite (IH Hs), andb_true_r. apply negb_true_iff.
  destruct (Ascii.eqb_spec c d) as [->|]; [congruence | reflexivity].
Qed.

Lemma lacks_part (c unit : ascii) (n : option N) :
  JSNumber.isDigit c = false -> c <> unit ->
  lacks c (Spec.part n (String unit "")) = true.
Proof.
  intros Hc Hne. destruct n as [v|]; cbn [Spec.part]; [|reflexivity].
  rewrite lacks_app, (lacks_digits c _ Hc (toString_allDigits v)).
  cbn [lacks andb]. rewrite andb_true_r. apply negb_true_iff.
  now apply Ascii.eqb_neq.
Qed.

Lemma lacks_P_no_PT (s : string) :
  lacks "P" s = true -> JSString.includes s "PT" = false.
Proof.
  induction s as [|d s IH]; [reflexivity|].
  cbn [lacks JSString.includes JSString.startsWith]. intros H.
  apply andb_true_iff in H. destruct H as [Hd Hs].
  apply negb_true_iff in Hd. rewrite Hd. cbn [andb orb]. now apply IH.
Qed.

Lemma exec_skip_P (pre d : string) :
  lacks "P" pre = true ->
  JSRegExp.exec durationPattern (pre ++ d) = JSRegExp.exec durationPattern d.
Proof.
  induction pre as [|c pre IH]; intros H; [reflexivity|].
  cbn [lacks] in H. apply andb_true_iff in H. destruct H as [Hc Hpre].
  change (String c pre ++ d) with (String c (pre ++ d)).
  cbn [JSRegExp.exec]. rewrite pattern_needs_PT.
  - now apply IH.
  - cbn [JSString.startsWith]. apply negb_true_iff in Hc. now rewrite Hc.
Qed.

End DurationFacts.

(** X16. A duration that counts days, [P<d>DT<h>H<m>M<s>S], is formatted to
    nothing, whatever its components: the pattern asks for [T] right after
    [P]. *)
Theorem formatDuration_with_days :
  forall days hours minutes seconds,
    formatDuration
      (Some ("P" ++ JSNumber.toString days ++ "DT" ++ Spec.part hours "H"
             ++ Spec.part minutes "M" ++ Spec.part seconds "S")%string)
    = None.
Proof.
  intros days hours minutes seconds.
  apply formatDuration_absent_iff.
  pose proof (toString_allDigits days) as Hd.
  pose proof (toString_nonempty days) as Hne.
  assert (Htail : lacks "P"
                    (JSNumber.toString days ++ "DT" ++ Spec.part hours "H"
                     ++ Spec.part minutes "M" ++ Spec.part seconds "S")%string
                  = true).
  { rewrite !lacks_app, (lacks_digits "P" _ eq_refl Hd).
    rewrite !lacks_part by (reflexivity || discriminate). reflexivity. }
  remember (JSNumber.toString days ++ "DT" ++ Spec.part hours "H"
            ++ Spec.part minutes "M" ++ Spec.part seconds "S")%string
    as tail eqn:Etail.
  change ("P" ++ tail)%string with (String "P" tail).
  cbn [JSString.includes]. rewrite (lacks_P_no_PT _ Htail), orb_false_r.
  destruct (JSNumber.toString days) as [|c r]; [congruence|].
  cbn [allDigits] in Hd. apply andb_true_iff in Hd. destruct Hd as [Hc _].
  subst tail. cbn [append JSString.startsWith].
  destruct (Ascii.eqb_spec "T" c) as [<-|]; [discriminate|].
  now rewrite andb_false_r.
Qed.

(** X17. What stands in front of the duration is ignored as long as it has
    no [P]: the text is formatted as if it began where the duration does. *)
Theorem formatDuration_ignores_prefix :
  forall pre d,
    lacks "P" pre = true ->
    formatDuration (Some (pre ++ d)%string) = formatDuration (Some d).
Proof.
  intros pre d Hpre. unfold formatDuration.
  rewrite (exec_skip_P pre d Hpre).
  destruct d as [|c d].
  - cbn [JSString.truthy negb].
    change (JSRegExp.exec durationPattern "") with (@None JSRegExp.captures).
    now destruct (negb (JSString.truthy (pre ++ ""))).
  - destruct pre; reflexivity.
Qed.

Lemma formatDuration_ignores_prefix_witness :
  formatDuration (Some "about PT4M13S") = formatDuration (Some "PT4M13S").
Proof.
  exact (formatDuration_ignores_prefix "about " "PT4M13S" eq_refl).
Defined.

(** ** More on the category detector *)

Section KeywordFacts.

Local Open Scope string_scope.

Lemma startsWith_before_space (x b keyword : string) :
  lacks " " keyword = true ->
  JSString.startsWith (x ++ String " " b) keyword
  = JSString.startsWith x keyword.
Proof.
  revert x. induction keyword as [|k keyword IH]; intros x H; [reflexivity|].
  cbn [lacks] in H. apply andb_true_iff in H. destruct H as [Hk Hrest].
  destruct x as [|c x]; cbn [append JSString.startsWith].
  - apply negb_true_iff in Hk.
    rewrite Ascii.eqb_sym in Hk. now rewrite Hk.
  - now rewrite IH.
Qed.

(** A keyword without a space occurs in two texts joined by a space exactly
    when it occurs in one of them. *)
Lemma includes_separated (a b keyword : string) :
  keyword <> "" -> lacks " " keyword = true ->
  JSString.includes (a ++ String " " b) keyword
  = JSString.includes a keyword || JSString.includes b keyword.
Proof.
  intros Hne Hsp. induction a as [|c a IH].
  - cbn [append JSString.includes].
    destruct keyword as [|k keyword]; [congruence|].
    cbn [lacks] in Hsp. apply andb_true_iff in Hsp. destruct Hsp as [Hk _].
    apply negb_true_iff in Hk. rewrite Ascii.eqb_sym in Hk.
    cbn [JSString.startsWith]. now rewrite Hk.
  - change (String c a ++ String " " b) with (String c (a ++ String " " b)).
    cbn [JSString.includes]. rewrite IH.
    change (String c (a ++ String " " b)) with (String c a ++ String " " b).
    rewrite startsWith_before_space by exact Hsp.
    now rewrite orb_assoc.
Qed.

Lemma existsb_separated (a b : string) (keywords : list string) :
  Forall (fun keyword => keyword <> "" /\ lacks " " keyword = true) keywords ->
  existsb (JSString.includes (a ++ String " " b)) keywords
  = existsb (JSString.includes a) keywords
    || existsb (JSString.includes b) keywords.
Proof.
  induction 1 as [|keyword keywords [Hne Hsp] _ IH]; [reflexivity|].
  cbn [existsb]. rewrite IH, includes_separated by assumption.
  destruct (JSString.includes a keyword), (JSString.includes b keyword),
    (existsb (JSString.includes a) keywords); reflexivity.
Qed.

(** The phrase of the last category brings nothing that its word [porch]
    does not. *)
Lemma porch_absorbs (content : string) :
  existsb (JSString.includes content)
          ["off the porch"; "porch"; "street"; "hood"]
  = existsb (JSString.includes content) ["porch"; "street"; "hood"].
Proof.
  cbn [existsb].
  destruct (JSString.includes content "off the porch") eqn:E;
    [|reflexivity].
  apply (includes_part content "off the " "porch" "") in E.
  now rewrite E.
Qed.

Lemma mentionsb_separated (a b cat : string) :
  In cat Spec.taxonomy ->
  mentionsb (a ++ String " " b) cat = mentionsb a cat || mentionsb b cat.
Proof.
  intros Hcat. unfold mentionsb.
  destruct Hcat as [<-|[<-|[<-|[<-|[<-|[]]]]]];
    try (apply existsb_separated;
         repeat constructor; discriminate).
  change (Spec.keywords "Off The Porch")
    with ["off the porch"; "porch"; "street"; "hood"].
  rewrite !porch_absorbs.
  apply existsb_separated; repeat constructor; discriminate.
Qed.

Lemma mentionsb_empty (cat : string) :
  In cat Spec.taxonomy -> mentionsb "" cat = false.
Proof. intros [<-|[<-|[<-|[<-|[<-|[]]]]]]; reflexivity. Qed.

Lemma content_separated (title0 description0 : string) :
  JSString.toLowerCase (title0 ++ " " ++ description0)
  = JSString.toLowerCase title0
    ++ String " " (JSString.toLowerCase description0).
Proof. now rewrite toLowerCase_app. Qed.

Lemma detect_In_other (title0 description0 cat : string) :
  cat <> "Music" ->
  In cat (detectCategoriesFromContent title0 description0)
  <-> In cat Spec.taxonomy
      /\ mentionsb (JSString.toLowerCase (title0 ++ " " ++ description0)) cat
         = true.
Proof.
  intros Hcat. rewrite detect_filter.
  destruct (filter _ Spec.taxonomy) as [|c l] eqn:E.
  - split.
    + intros [H|[]]. congruence.
    + intros H. apply filter_In in H. rewrite E in H. destruct H.
  - rewrite <- E. apply filter_In.
Qed.

End KeywordFacts.

(** X18. The detector does not see letter case: titles with the same
    lower-case form and descriptions with the same lower-case form give the
    same categories. *)
Theorem detectCategoriesFromContent_case :
  forall title1 description1 title2 description2,
    JSString.toLowerCase title1 = JSString.toLowerCase title2 ->
    JSString.toLowerCase description1 = JSString.toLowerCase description2 ->
    detectCategoriesFromContent title1 description1
    = detectCategoriesFromContent title2 description2.
Proof.
  intros title1 description1 title2 description2 Ht Hd.
  rewrite !detect_filter, !content_separated. now rewrite Ht, Hd.
Qed.

Lemma detectCategoriesFromContent_case_witness :
  detectCategoriesFromContent "STREET Talk" "New EPISODE"
  = detectCategoriesFromContent "street talk" "new episode".
Proof.
  exact (detectCategoriesFromContent_case "STREET Talk" "New EPISODE"
           "street talk" "new episode" eq_refl eq_refl).
Defined.

(** X19. Title and description are searched apart: a category other than
    ["Music"] is detected for a title and a description exactly when it is
    detected for the title alone or for the description alone, so no keyword
    is found across the place where the two texts meet. *)
Theorem detectCategoriesFromContent_separate :
  forall title0 description0 cat,
    cat <> "Music" ->
    In cat (detectCategoriesFromContent title0 description0)
    <-> In cat (detectCategoriesFromContent title0 "")
        \/ In cat (detectCategoriesFromContent "" description0).
Proof.
  intros title0 description0 cat Hcat.
  rewrite !detect_In_other by exact Hcat.
  rewrite !content_separated.
  change (JSString.toLowerCase "") with "".
  split.
  - intros [Hin H]. rewrite mentionsb_separated in H by exact Hin.
    rewrite !mentionsb_separated, mentionsb_empty by exact Hin.
    rewrite orb_false_r. cbn [orb].
    apply orb_true_iff in H. tauto.
  - intros [[Hin H] | [Hin H]]; (split; [exact Hin|]);
      rewrite mentionsb_separated in * by exact Hin;
      rewrite mentionsb_empty in H by exact Hin;
      rewrite ?orb_false_r in H; cbn [orb] in H; rewrite H;
      [reflexivity | apply orb_true_r].
Qed.

Lemma detectCategoriesFromContent_separate_witness :
  In "Podcasts" (detectCategoriesFromContent "Late show" "s how to")
  <-> In "Podcasts" (detectCategoriesFromContent "Late show" "")
      \/ In "Podcasts" (detectCategoriesFromContent "" "s how to").
Proof.
  apply (detectCategoriesFromContent_separate "Late show" "s how to"
                                              "Podcasts").
  discriminate.
Defined.

(** ** The category list and the filter together *)

(** X20. Right after a load in which some category was observed, whatever
    the list was before, every category of the list shown that is not of the
    baseline selects at least one record of that load; and a selection other
    than ["All"] shows only records that carry it as their category or as a
    tag. *)
Theorem categories_select_records :
  forall localeCompare dynamicCategories videoList selectedCategory,
    (allUniqueCategories videoList <> [] ->
     In selectedCategory
        (categories localeCompare (loadVideos dynamicCategories videoList)) ->
     ~ In selectedCategory staticCategories ->
     filterVideos videoList selectedCategory "" <> [])
    /\ (selectedCategory <> "All" ->
        forall video,
          In video (filterVideos videoList selectedCategory "") ->
          category video = selectedCategory
          \/ In selectedCategory (Spec.tagsOf video)).
Proof.
  intros localeCompare dyn videoList sel. split.
  - intros Hobs Hshown Hnew Hempty.
    rewrite (loadVideos_observing dyn [] videoList) in Hshown
      by (destruct (allUniqueCategories videoList);
          [congruence | reflexivity]).
    apply reconcile_In in Hshown. destruct Hshown as [H|H]; [contradiction|].
    apply allUniqueCategories_In in H. destruct H as [video [Hin Hsel]].
    assert (Hk : In video (filterVideos videoList sel "")).
    { rewrite filterVideos_keeps. apply filter_In. split; [exact Hin|].
      unfold keeps. rewrite (proj2 (categoryStage_spec sel video) Hsel).
      now rewrite orb_true_r. }
    rewrite Hempty in Hk. destruct Hk.
  - intros Hsel video Hin.
    rewrite filterVideos_keeps in Hin. apply filter_In in Hin.
    destruct Hin as [_ Hk]. unfold keeps in Hk.
    apply andb_true_iff in Hk. destruct Hk as [Hk _].
    rewrite (proj2 (String.eqb_neq sel "All") Hsel) in Hk.
    now apply categoryStage_spec.
Qed.

Lemma categories_select_records_witness :
  filterVideos [exampleA; exampleC] "Zed" "" <> [].
Proof.
  refine (proj1 (categories_select_records JSString.defaultCompare
                   ["All"; "Old"] [exampleA; exampleC] "Zed") _ _ _).
  - vm_compute. discriminate.
  - vm_compute. tauto.
  - simpl. intuition discriminate.
Defined.
